(** * AlphaCodium: the generate / rank / validate / retry workflow

    A shallow embedding of [AlphaCodium/code-gen-index.ts] together with the
    zod schemas it hands to the model ([schemas/code-gen-schema.ts],
    [schemas/rank-schema.ts]).

    The program is dynamically typed at run time: what the state holds is
    whatever the structured-output parser returned, and the validator builds
    records whose fields may be [undefined].  Values are therefore modelled
    as JavaScript values, objects as association lists in insertion order. *)

From Stdlib Require Import ZArith Lia.
From stdpp Require Import base option list strings gmap.

#[local] Set Warnings "-register-all".


(** ** JavaScript values and the operations the program uses on them *)

Module Js.

Inductive Error : Type :=
| TypeError                                (* member access on null / undefined *)
| GatewayError (msg : string)              (* the provider call rejected *)
| OutputParserException                    (* the output does not match the schema *)
| UnknownDestination (label : string)      (* a branch returned a label its path map lacks *)
| GraphRecursionError.                     (* recursion limit of the graph engine *)

Inductive Result (A : Type) : Type :=
| Ok (a : A)
| Throw (e : Error).
Arguments Ok {A} a.
Arguments Throw {A} e.

#[export] Instance result_ret : MRet Result := fun A a => Ok a.
#[export] Instance result_bind : MBind Result := fun A B f m =>
  match m with
  | Ok a => f a
  | Throw e => Throw e
  end.

Inductive JsVal : Type :=
| JUndefined
| JNull
| JBool (b : bool)
| JNum (n : Z)
| JStr (s : string)
| JArr (elems : list JsVal)
| JObj (props : list (string * JsVal)).

(** [null] and [undefined]: the values [?.] short-circuits on. *)
Definition nullish (v : JsVal) : bool :=
  match v with
  | JUndefined | JNull => true
  | _ => false
  end.

(** ToBoolean, as applied by [!v] and [v || w]. *)
Definition truthy (v : JsVal) : bool :=
  match v with
  | JUndefined | JNull => false
  | JBool b => b
  | JNum n => negb (n =? 0)%Z
  | JStr s => negb (String.eqb s "")
  | JArr _ | JObj _ => true
  end.

(** Own property lookup; a missing key reads as [undefined]. *)
Fixpoint lookup_prop (k : string) (props : list (string * JsVal)) : JsVal :=
  match props with
  | [] => JUndefined
  | (k', v) :: rest => if String.eqb k k' then v else lookup_prop k rest
  end.

Fixpoint has_prop (k : string) (props : list (string * JsVal)) : bool :=
  match props with
  | [] => false
  | (k', _) :: rest => if String.eqb k k' then true else has_prop k rest
  end.

(** [v.k].  Throws on [null] and [undefined].  The program only reads the
    names solutions, testCases, bestSolution, failure, reason, code,
    imports and prefix, none of which is a built-in property of a
    primitive or of an array, so those read as [undefined]. *)
Definition member (v : JsVal) (k : string) : Result JsVal :=
  match v with
  | JUndefined | JNull => Throw TypeError
  | JObj props => Ok (lookup_prop k props)
  | _ => Ok JUndefined
  end.

(** [v?.k]. *)
Definition opt_member (v : JsVal) (k : string) : JsVal :=
  match v with
  | JUndefined | JNull => JUndefined
  | JObj props => lookup_prop k props
  | _ => JUndefined
  end.

End Js.
Export Js.

(** ** The fragment of zod the schemas are written in *)

Module Zod.

Inductive Schema : Type :=
| z_string
| z_array (item : Schema)
| z_object (shape : list (string * Schema)).

(** [schema.safeParse(v)]: [None] is a failed parse, [Some d] the parsed
    data.  Objects are parsed key by key in the order of the shape and
    unknown keys are stripped (zod's default for [z.object]). *)
Fixpoint parse (sch : Schema) (v : JsVal) {struct sch} : option JsVal :=
  match sch with
  | z_string =>
      match v with
      | JStr _ => Some v
      | _ => None
      end
  | z_array item =>
      match v with
      | JArr elems => JArr <$> mapM (parse item) elems
      | _ => None
      end
  | z_object shape =>
      match v with
      | JObj props =>
          JObj <$>
            (fix fields (sh : list (string * Schema)) : option (list (string * JsVal)) :=
               match sh with
               | [] => Some []
               | (k, s) :: rest =>
                   d ← parse s (lookup_prop k props);
                   ds ← fields rest;
                   Some ((k, d) :: ds)
               end) shape
      | _ => None
      end
  end.

End Zod.
Export Zod.

(** schemas/code-gen-schema.ts *)
Definition codeGenSchema : Schema :=
  z_object
    [("solutions",
      z_array (z_object [("code", z_string); ("imports", z_string); ("prefix", z_string)]))].

Definition testCaseSchema : Schema :=
  z_object
    [("testCases",
      z_array (z_object [("testCode", z_string); ("prefix", z_string)]))].

(** schemas/rank-schema.ts *)
Definition rankSchema : Schema :=
  z_object
    [("bestSolution",
      z_object [("code", z_string); ("imports", z_string); ("prefix", z_string)])].

(** ** code-gen-index.ts *)

(** *** The chat model *)

(** A prompt is a fixed template with one interpolated value; the model is
    opaque, so a prompt is kept as the template's name and that value. *)
Inductive Prompt : Type :=
| CodeGenPrompt (userQuery : JsVal)
| TestCasePrompt (userQuery : JsVal)
| RankPrompt (solutions : option (list JsVal)).  (* JSON.stringify(solutions) *)

(** [model.invoke]: the raw completion, or a rejection.  The first argument
    is the superstep in which the call is made, so that the same prompt may
    be answered differently on a later pass. *)
Definition ChatModel : Type := nat -> Prompt -> Result JsVal.

(** [model.withStructuredOutput(schema).invoke([new HumanMessage(prompt)])]:
    the completion is validated against the schema; the caller receives the
    parsed data or the parser's exception. *)
Definition withStructuredOutput
    (model : ChatModel) (schema : Schema) (step : nat) (prompt : Prompt) : Result JsVal :=
  raw ← model step prompt;
  match parse schema raw with
  | Some data => Ok data
  | None => Throw OutputParserException
  end.

(** *** GraphState *)

Inductive Message : Type :=
| HumanMessage (content : string)
| AIMessage (name : string) (stringified : JsVal).  (* content: JSON.stringify(value) *)

(** The [generation] object.  Either key may be missing: the nodes write
    [{solutions}] or [{testCases}] alone. *)
Record Generation : Type := mkGeneration {
  solutions : option (list JsVal);
  testCases : option (list JsVal);
}.

(** Channel values.  A channel nobody wrote yet reads as [undefined];
    [generation] keeps [None] for both [null] and [undefined], which the
    program never tells apart ([!prev], [generation?.]). *)
Record State : Type := mkState {
  messages : list Message;
  userQuery : JsVal;
  status : JsVal;
  generation : option Generation;
  bestSolution : JsVal;
  iterations : Z;
  reflections : list string;
}.

(** What a node returns (and what [invoke] is given): a value for some of
    the channels. *)
Record Update : Type := mkUpdate {
  u_messages : option (list Message);
  u_userQuery : option JsVal;
  u_status : option JsVal;
  u_generation : option (option Generation);
  u_bestSolution : option JsVal;
  u_iterations : option Z;
  u_reflections : option (list string);
}.

Definition messages_reducer (x y : list Message) : list Message := x ++ y.
Definition userQuery_reducer (x y : JsVal) : JsVal := y.
Definition status_reducer (x y : JsVal) : JsVal := y.

Definition generation_reducer (prev next : option Generation) : option Generation :=
  match prev with
  | None => next
  | Some p =>
      match next with
      | None => prev
      | Some n =>
          Some {| solutions := Some (default [] (solutions p) ++ default [] (solutions n));
                  testCases := Some (default [] (testCases p) ++ default [] (testCases n)) |}
      end
  end.

(** [bestSolution] is declared without a reducer: the last value wins. *)
Definition bestSolution_reducer (x y : JsVal) : JsVal := y.
(** [x + y] on numbers.  The counter is kept as an integer; the sum is that
    of the program as long as the values stay integers below 2^53 in
    magnitude, which those of a run (0 and 1) do. *)
Definition iterations_reducer (x y : Z) : Z := (x + y)%Z.
Definition reflections_reducer (x y : list string) : list string := x ++ y.

(** The channels before anything is written: the declared defaults
    ([iterations] 0, [reflections] []), nothing elsewhere.  The first write
    to a channel without a default is stored as it is; with the empty
    values below the reducers give the same result. *)
Definition emptyState : State :=
  {| messages := []; userQuery := JUndefined; status := JUndefined; generation := None;
     bestSolution := JUndefined; iterations := 0; reflections := [] |}.

Definition write {A B : Type} (reducer : A -> B -> A) (x : A) (w : option B) : A :=
  match w with
  | Some y => reducer x y
  | None => x
  end.

(** Merging one update into the state, channel by channel. *)
Definition applyUpdate (s : State) (u : Update) : State :=
  {| messages := write messages_reducer (messages s) (u_messages u);
     userQuery := write userQuery_reducer (userQuery s) (u_userQuery u);
     status := write status_reducer (status s) (u_status u);
     generation := write generation_reducer (generation s) (u_generation u);
     bestSolution := write bestSolution_reducer (bestSolution s) (u_bestSolution u);
     iterations := write iterations_reducer (iterations s) (u_iterations u);
     reflections := write reflections_reducer (reflections s) (u_reflections u) |}.

(** The two pools as lists, a missing object or key being the empty pool
    (as in [prev.solutions || []]). *)
Definition pool_solutions (s : State) : list JsVal :=
  match generation s with
  | Some g => default [] (solutions g)
  | None => []
  end.

Definition pool_testCases (s : State) : list JsVal :=
  match generation s with
  | Some g => default [] (testCases g)
  | None => []
  end.

(** The items an update brings to each pool. *)
Definition new_solutions (u : Update) : list JsVal :=
  match u_generation u with
  | Some (Some g) => default [] (solutions g)
  | _ => []
  end.

Definition new_testCases (u : Update) : list JsVal :=
  match u_generation u with
  | Some (Some g) => default [] (testCases g)
  | _ => []
  end.

(** *** The nodes *)

(** The elements of an array value.  Both schemas make the value stored in
    a pool an array (see [codeGen_solutions_array] below). *)
Definition array_of (v : JsVal) : option (list JsVal) :=
  match v with
  | JArr elems => Some elems
  | _ => None
  end.

Definition generateCode (model : ChatModel) (step : nat) (state : State) : Result Update :=
  let prompt := CodeGenPrompt (userQuery state) in
  result ← withStructuredOutput model codeGenSchema step prompt;
  codeGeneration ← member result "solutions";
  Ok {| u_generation := Some (Some {| solutions := array_of codeGeneration; testCases := None |});
        u_iterations := Some 1%Z;
        u_messages := Some [AIMessage "code_generation" (JObj [("solutions", codeGeneration)])];
        u_userQuery := None; u_status := None; u_bestSolution := None; u_reflections := None |}.

Definition generateTestCases (model : ChatModel) (step : nat) (state : State) : Result Update :=
  let prompt := TestCasePrompt (userQuery state) in
  result ← withStructuredOutput model testCaseSchema step prompt;
  testCases ← member result "testCases";
  Ok {| u_generation := Some (Some {| solutions := None; testCases := array_of testCases |});
        u_messages := Some [AIMessage "test_case_generation" (JObj [("testCases", testCases)])];
        u_userQuery := None; u_status := None; u_bestSolution := None; u_iterations := None;
        u_reflections := None |}.

Definition rankSolutions (model : ChatModel) (step : nat) (state : State) : Result Update :=
  let solutions := g ← generation state; solutions g in   (* generation?.solutions *)
  let prompt := RankPrompt solutions in
  result ← withStructuredOutput model rankSchema step prompt;
  best ← member result "bestSolution";
  Ok {| u_bestSolution := Some best;
        u_messages := None; u_userQuery := None; u_status := None; u_generation := None;
        u_iterations := None; u_reflections := None |}.

Definition END : string := "__end__".

(** The router also logs "retrying" before it returns the retry label. *)
Definition retryRouter (state : State) : Result string :=
  failure ← member (status state) "failure";
  if negb (truthy (opt_member failure "reason")) || (3 <=? iterations state)%Z
  then Ok END
  else Ok "call_model".

(** The body of [validateCode] for a given value of its [isValid]. *)
Definition validateCode_body (isValid : bool) (state : State) : Result Update :=
  let testCases := g ← generation state; testCases g in  (* generation?.testCases, unused *)
  let code := opt_member (bestSolution state) "code" in
  let imports := opt_member (bestSolution state) "imports" in
  let prefix := opt_member (bestSolution state) "prefix" in
  if isValid
  then Ok {| u_status :=
               Some (JObj [("success",
                            JObj [("code", code); ("imports", imports); ("prefix", prefix)])]);
             u_messages := None; u_userQuery := None; u_generation := None;
             u_bestSolution := None; u_iterations := None; u_reflections := None |}
  else Ok {| u_status :=
               Some (JObj [("failure", JObj [("reason", JStr "The code is not valid")])]);
             u_messages := None; u_userQuery := None; u_generation := None;
             u_bestSolution := None; u_iterations := None; u_reflections := None |}.

Definition validateCode (state : State) : Result Update :=
  let isValid := true in
  validateCode_body isValid state.

(** *** The graph *)

Inductive Node : Type :=
| generate_code
| generate_test_cases
| rank_solutions
| validate_code.

#[export] Instance Node_eq_dec : EqDecision Node.
Proof. solve_decision. Defined.

Definition node_of_name (name : string) : option Node :=
  if decide (name = "generate_code") then Some generate_code
  else if decide (name = "generate_test_cases") then Some generate_test_cases
  else if decide (name = "rank_solutions") then Some rank_solutions
  else if decide (name = "validate_code") then Some validate_code
  else None.

(** [addNode] *)
Definition nodeFn (n : Node) : ChatModel -> nat -> State -> Result Update :=
  match n with
  | generate_code => generateCode
  | generate_test_cases => generateTestCases
  | rank_solutions => rankSolutions
  | validate_code => fun _ _ => validateCode
  end.

(** [addEdge(START, "generate_code")] *)
Definition entry : list Node := [generate_code].

(** [addEdge] between nodes *)
Definition edges : list (Node * Node) :=
  [ (generate_code, generate_test_cases);
    (generate_code, rank_solutions);
    (generate_test_cases, validate_code);
    (rank_solutions, validate_code) ].

Definition successors (n : Node) : list Node :=
  (filter (fun e => e.1 = n) edges).*2.

(** [addConditionalEdges("validate_code", retryRouter, pathMap)] *)
Definition pathMap : gmap string string :=
  {[ END := END; "generate_code" := "generate_code" ]}.

Definition branch (n : Node) : option (State -> Result string) :=
  match n with
  | validate_code => Some retryRouter
  | _ => None
  end.

(** The engine looks the label a branch returned up in the path map; a label
    without an entry is an error of the run, [END] schedules nothing. *)
Definition route (ends : gmap string string) (label : string) : Result (list Node) :=
  match ends !! label with
  | None => Throw (UnknownDestination label)
  | Some dest =>
      if decide (dest = END) then Ok []
      else match node_of_name dest with
           | Some n => Ok [n]
           | None => Throw (UnknownDestination dest)
           end
  end.

(** One task of a superstep: the node's function on the state as it was
    when the superstep began, then the node's outgoing edges.  A branch reads
    the state with the task's own update applied. *)
Definition runTask (model : ChatModel) (step : nat) (s : State) (n : Node)
    : Result (Update * list Node) :=
  u ← nodeFn n model step s;
  targets ← match branch n with
            | None => Ok []
            | Some path => label ← path (applyUpdate s u); route pathMap label
            end;
  Ok (u, successors n ++ targets).

(** When several tasks of one superstep fail, which error the run ends
    with depends on the order in which they settle; the program has no say
    in it, so it is a parameter of a run. *)
Definition Race : Type := nat -> list (Node * Error) -> Error.

Definition surfaced (race : Race) (step : nat) (failures : list (Node * Error)) : option Error :=
  match failures with
  | [] => None
  | [(_, e)] => Some e
  | _ => Some (race step failures)
  end.

Fixpoint failures {A : Type} (rs : list (Node * Result A)) : list (Node * Error) :=
  match rs with
  | [] => []
  | (n, Throw e) :: rest => (n, e) :: failures rest
  | (_, Ok _) :: rest => failures rest
  end.

Fixpoint successes {A : Type} (rs : list (Node * Result A)) : list A :=
  match rs with
  | [] => []
  | (_, Ok a) :: rest => a :: successes rest
  | (_, Throw _) :: rest => successes rest
  end.

(** A run in progress: the channels, the nodes scheduled for the next
    superstep, the nodes started so far (oldest first), and the number of
    supersteps done. *)
Record Config : Type := mkConfig {
  state : State;
  active : list Node;
  trace : list Node;
  stepno : nat;
}.

Inductive StepResult : Type :=
| Continue (c : Config)
| Finish (c : Config)
| Abort (e : Error) (c : Config).

(** One superstep.  All scheduled nodes start on the same state.  If a task
    fails the run ends with an error and nothing of the superstep is
    written; otherwise the updates are merged in task order and the targets
    become the next schedule. *)
Definition superstep (model : ChatModel) (race : Race) (c : Config) : StepResult :=
  let results := map (fun n => (n, runTask model (stepno c) (state c) n)) (active c) in
  let started := trace c ++ active c in
  match surfaced race (stepno c) (failures results) with
  | Some e =>
      Abort e {| state := state c; active := []; trace := started; stepno := stepno c |}
  | None =>
      let done := successes results in
      let state' := foldl applyUpdate (state c) (done.*1) in
      let next := remove_dups (concat (done.*2)) in
      let c' := {| state := state'; active := next; trace := started; stepno := S (stepno c) |} in
      match next with
      | [] => Finish c'
      | _ => Continue c'
      end
  end.

Inductive Outcome : Type :=
| Completed
| Failed (e : Error).

Fixpoint loop (fuel : nat) (model : ChatModel) (race : Race) (c : Config) : Outcome * Config :=
  match fuel with
  | O => (Failed GraphRecursionError, c)
  | S fuel' =>
      match superstep model race c with
      | Continue c' => loop fuel' model race c'
      | Finish c' => (Completed, c')
      | Abort e c' => (Failed e, c')
      end
  end.

(** The engine's default bound on the supersteps of one [invoke]. *)
Definition recursionLimit : nat := 25.

(** The input is written to the channels and the entry node is scheduled. *)
Definition initialConfig (input : Update) : Config :=
  {| state := applyUpdate emptyState input; active := entry; trace := []; stepno := 0 |}.

(** [graph.compile().invoke(input)] *)
Definition invoke (model : ChatModel) (race : Race) (input : Update) : Outcome * Config :=
  loop recursionLimit model race (initialConfig input).

(** The configurations a run passes through: the initial one, and every one
    that a superstep without a failure leads to. *)
Inductive reachable (model : ChatModel) (race : Race) (input : Update) : Config -> Prop :=
| reachable_init :
    reachable model race input (initialConfig input)
| reachable_continue (c c' : Config) :
    reachable model race input c ->
    superstep model race c = Continue c' ->
    reachable model race input c'.

(** How a run ends: by a superstep that schedules nothing more, or by one
    in which a task failed. *)
Inductive ended (model : ChatModel) (race : Race) (input : Update) : Outcome -> Config -> Prop :=
| ended_finish (c c' : Config) :
    reachable model race input c ->
    superstep model race c = Finish c' ->
    ended model race input Completed c'
| ended_abort (c c' : Config) (e : Error) :
    reachable model race input c ->
    superstep model race c = Abort e c' ->
    ended model race input (Failed e) c'.

(** The input [main] builds for a query. *)
Definition mainInput (query : string) : Update :=
  {| u_messages := Some [HumanMessage query];
     u_userQuery := Some (JStr query);
     u_iterations := Some 0%Z;
     u_generation := Some None;
     u_status := None; u_bestSolution := None; u_reflections := None |}.

Definition main (model : ChatModel) (race : Race) : Outcome * Config :=
  invoke model race (mainInput "write a function to add two numbers").

(** How often a node was started in a trace. *)
Definition executions (n : Node) (tr : list Node) : nat :=
  length (filter (fun m => m = n) tr).

(** The shapes the schemas describe. *)
Definition isCandidate (v : JsVal) : Prop :=
  exists code imports prefix : string,
    v = JObj [("code", JStr code); ("imports", JStr imports); ("prefix", JStr prefix)].

Definition isTestCase (v : JsVal) : Prop :=
  exists testCode prefix : string,
    v = JObj [("testCode", JStr testCode); ("prefix", JStr prefix)].

(** An update that writes [status] alone, as [validateCode] returns. *)
Definition statusUpdate (st : JsVal) : Update :=
  {| u_status := Some st;
     u_messages := None; u_userQuery := None; u_generation := None;
     u_bestSolution := None; u_iterations := None; u_reflections := None |}.

(** The status the validator writes when [isValid] holds. *)
Definition successStatus (best : JsVal) : JsVal :=
  JObj [("success",
         JObj [("code", opt_member best "code");
               ("imports", opt_member best "imports");
               ("prefix", opt_member best "prefix")])].

(** ** Sample models and states *)

Definition sampleCandidate (code : string) : JsVal :=
  JObj [("code", JStr code); ("imports", JStr ""); ("prefix", JStr "adds two numbers")].

Definition sampleTestCase (testCode : string) : JsVal :=
  JObj [("testCode", JStr testCode); ("prefix", JStr "small inputs")].

(** A model that answers every prompt in the expected format.  Its ranking
    answer is a rewritten candidate, not one of those it was shown. *)
Definition sampleModel : ChatModel := fun _ prompt =>
  match prompt with
  | CodeGenPrompt _ =>
      Ok (JObj [("solutions", JArr [sampleCandidate "a + b"; sampleCandidate "b + a"])])
  | TestCasePrompt _ =>
      Ok (JObj [("testCases", JArr [sampleTestCase "add(1, 2)"; sampleTestCase "add(0, 0)"])])
  | RankPrompt _ =>
      Ok (JObj [("bestSolution", sampleCandidate "return a + b")])
  end.

(** A model whose provider fails once the solutions are generated. *)
Definition outageModel : ChatModel := fun _ prompt =>
  match prompt with
  | CodeGenPrompt _ =>
      Ok (JObj [("solutions", JArr [sampleCandidate "a + b"; sampleCandidate "b + a"])])
  | TestCasePrompt _ => Throw (GatewayError "test cases: timeout")
  | RankPrompt _ => Throw (GatewayError "ranking: rate limit")
  end.

(** A model that fails for the test cases only. *)
Definition noTestsModel : ChatModel := fun step prompt =>
  match prompt with
  | TestCasePrompt _ => Throw (GatewayError "test cases: timeout")
  | _ => sampleModel step prompt
  end.

(** Two ways the failures of one superstep can settle. *)
Definition firstListed : Race := fun _ fs =>
  match fs with
  | (_, e) :: _ => e
  | [] => TypeError
  end.

Definition lastListed : Race := fun _ fs =>
  match last fs with
  | Some (_, e) => e
  | None => TypeError
  end.

Definition sampleState (st : JsVal) (best : JsVal) (n : Z) : State :=
  {| messages := []; userQuery := JStr "write a function to add two numbers";
     status := st;
     generation := Some {| solutions := Some [sampleCandidate "a + b"; sampleCandidate "b + a"];
                           testCases := Some [sampleTestCase "add(1, 2)"] |};
     bestSolution := best; iterations := n; reflections := [] |}.

(** A failure whose reason is the empty string, after the first pass. *)
Definition emptyReasonState : State :=
  sampleState (JObj [("failure", JObj [("reason", JStr ""); ("code", JStr "a + b")])])
              (sampleCandidate "a + b") 1.

(** The failure the validator's else branch writes, after the first pass. *)
Definition failedOnceState : State :=
  sampleState (JObj [("failure", JObj [("reason", JStr "The code is not valid")])])
              (sampleCandidate "a + b") 1.

(** No best solution yet. *)
Definition unrankedState : State := sampleState JUndefined JNull 1.

(** ** utils/graph-visualizer.ts *)

(** The part of the file system [visualizeGraph] touches.  A path is the
    list of its segments from the root; a directory is a path in [dirs], a
    regular file a key of [files]. *)

Module Fs.

Definition Path : Type := list string.

Inductive IoError : Type :=
| RenderError (msg : string)   (* drawing the graph failed *)
| ENOENT                       (* a directory on the way does not exist *)
| EEXIST                       (* the path to create exists already *)
| ENOTDIR                      (* a regular file stands where a directory is needed *)
| EISDIR.                      (* the path to write is a directory *)

Inductive IoResult (A : Type) : Type :=
| Done (a : A)
| Raise (e : IoError).
Arguments Done {A} a.
Arguments Raise {A} e.

Record FileSystem : Type := mkFileSystem {
  dirs : gset (list string);
  files : gmap (list string) (list Init.Byte.byte);
}.

Definition isDir (p : Path) (fs : FileSystem) : bool := bool_decide (p ∈ dirs fs).

Definition isFile (p : Path) (fs : FileSystem) : bool := bool_decide (is_Some (files fs !! p)).

(** The directory a path lies in; the root is its own parent. *)
Definition parent (p : Path) : Path := removelast p.

(** [path.join(base, ...parts)] for a normalized absolute base and parts
    that are single segments: [..] steps to the parent, [.] and the empty
    segment stay. *)
Definition joinSegment (p : Path) (seg : string) : Path :=
  if decide (seg = "..") then parent p
  else if decide (seg = ".") then p
  else if decide (seg = "") then p
  else p ++ [seg].

Definition join (base : Path) (parts : list string) : Path :=
  foldl joinSegment base parts.

(** [fs.existsSync]: true for a directory and for a regular file. *)
Definition existsSync (p : Path) (fs : FileSystem) : bool := isDir p fs || isFile p fs.

(** Why a path cannot be created or written below its parent. *)
Definition parentError (p : Path) (fs : FileSystem) : IoError :=
  if isFile (parent p) fs then ENOTDIR else ENOENT.

(** [fs.mkdirSync(p)], not recursive. *)
Definition mkdirSync (p : Path) (fs : FileSystem) : FileSystem * IoResult unit :=
  if existsSync p fs then (fs, Raise EEXIST)
  else if isDir (parent p) fs
       then ({| dirs := {[ p ]} ∪ dirs fs; files := files fs |}, Done tt)
       else (fs, Raise (parentError p fs)).

(** [fs.writeFileSync(p, data)]: creates or replaces the file. *)
Definition writeFileSync (p : Path) (data : list Init.Byte.byte) (fs : FileSystem)
    : FileSystem * IoResult unit :=
  if isDir p fs then (fs, Raise EISDIR)
  else if isDir (parent p) fs
       then ({| dirs := dirs fs; files := <[ p := data ]> (files fs) |}, Done tt)
       else (fs, Raise (parentError p fs)).

End Fs.
Export Fs.

(** [visualizeGraph(graph)].  [image] is what the three awaited calls
    ([getGraphAsync], [drawMermaidPng], [arrayBuffer]) give: the bytes of the
    picture, or a rejection.  [dirname] is [__dirname], the directory of the
    module.  The result is the file system afterwards and what the promise
    settles with. *)
Definition visualizeGraph
    (image : IoResult (list Init.Byte.byte)) (dirname : Path) (fs : FileSystem)
    : FileSystem * IoResult (list Init.Byte.byte) :=
  match image with
  | Raise e => (fs, Raise e)
  | Done arrayBuffer =>
      let distDir := join dirname [".."; "graphs"] in
      let created :=
        if negb (existsSync distDir fs) then mkdirSync distDir fs else (fs, Done tt) in
      match created with
      | (fs1, Raise e) => (fs1, Raise e)
      | (fs1, Done _) =>
          match writeFileSync (join distDir ["graph.png"]) arrayBuffer fs1 with
          | (fs2, Raise e) => (fs2, Raise e)
          | (fs2, Done _) => (fs2, Done arrayBuffer)
          end
      end
  end.

(** Where the picture goes. *)
Definition graphsDir (dirname : Path) : Path := join dirname [".."; "graphs"].
Definition graphPng (dirname : Path) : Path := join (graphsDir dirname) ["graph.png"].

(** A checkout with the two directories of the sources and one file. *)
Definition sampleFs : FileSystem :=
  {| dirs := {[ []; ["AlphaCodium"]; ["AlphaCodium"; "utils"] ]};
     files := {[ ["AlphaCodium"; "utils"; "graph-visualizer.ts"] := [] ]} |}.

Definition sampleDirname : Path := ["AlphaCodium"; "utils"].

Definition samplePng : list Init.Byte.byte := [Init.Byte.x89; Init.Byte.x50; Init.Byte.x4e; Init.Byte.x47].

(** The same checkout with a regular file named graphs in the way. *)
Definition blockedFs : FileSystem :=
  {| dirs := dirs sampleFs;
     files := <[ ["AlphaCodium"; "graphs"] := [] ]> (files sampleFs) |}.

(** A model whose provider is unreachable, and one whose solutions lack
    the imports. *)
Definition unreachableModel : ChatModel := fun _ _ => Throw (GatewayError "no api key").

Definition sloppyModel : ChatModel := fun _ _ =>
  Ok (JObj [("solutions", JArr [JObj [("code", JStr "a + b"); ("prefix", JStr "adds")]])]).

(** * Properties *)

(** ** What the schemas let through *)

Section Schemas.

Lemma parse_string_inv (v d : JsVal) :
  parse z_string v = Some d -> exists s, v = JStr s /\ d = JStr s.
Proof. destruct v; simpl; intros H; inversion H; eauto. Qed.

Lemma parse_array_inv (item : Schema) (v d : JsVal) :
  parse (z_array item) v = Some d ->
  exists elems ds, v = JArr elems /\ d = JArr ds /\ mapM (parse item) elems = Some ds.
Proof.
  destruct v; simpl; try discriminate.
  destruct (mapM (parse item) elems) as [ds|] eqn:E; simpl; intros H; inversion H.
  eauto.
Qed.

Lemma mapM_parse_Forall (item : Schema) (Q : JsVal -> Prop) :
  (forall v d, parse item v = Some d -> Q d) ->
  forall elems ds, mapM (parse item) elems = Some ds -> Forall Q ds.
Proof.
  intros HQ elems ds H. apply mapM_Some_1 in H.
  induction H as [|v d elems ds Hvd _ IH]; constructor; eauto.
Qed.

Lemma parse_candidate (v d : JsVal) :
  parse (z_object [("code", z_string); ("imports", z_string); ("prefix", z_string)]) v = Some d ->
  isCandidate d.
Proof.
  destruct v as [| | | | |?|props]; simpl; try discriminate.
  destruct (lookup_prop "code" props); simpl; try discriminate.
  destruct (lookup_prop "imports" props); simpl; try discriminate.
  destruct (lookup_prop "prefix" props); simpl; try discriminate.
  intros H; inversion H. unfold isCandidate. eauto.
Qed.

Lemma parse_testCase (v d : JsVal) :
  parse (z_object [("testCode", z_string); ("prefix", z_string)]) v = Some d ->
  isTestCase d.
Proof.
  destruct v as [| | | | |?|props]; simpl; try discriminate.
  destruct (lookup_prop "testCode" props); simpl; try discriminate.
  destruct (lookup_prop "prefix" props); simpl; try discriminate.
  intros H; inversion H. unfold isTestCase. eauto.
Qed.

Lemma parse_object1_inv (k : string) (sch : Schema) (v d : JsVal) :
  parse (z_object [(k, sch)]) v = Some d ->
  exists props x, v = JObj props /\ parse sch (lookup_prop k props) = Some x /\ d = JObj [(k, x)].
Proof.
  destruct v as [| | | | |?|props]; simpl; try discriminate.
  destruct (parse sch (lookup_prop k props)) as [x|] eqn:E; simpl; intros H; inversion H.
  eauto.
Qed.

Lemma parse_codeGenSchema_inv (raw d : JsVal) :
  parse codeGenSchema raw = Some d ->
  exists sols, d = JObj [("solutions", JArr sols)] /\ Forall isCandidate sols.
Proof.
  intros H. apply parse_object1_inv in H as (props & x & _ & E & ->).
  apply parse_array_inv in E as (elems & sols & _ & -> & E).
  exists sols. split; [reflexivity|].
  eapply mapM_parse_Forall; [|exact E]. apply parse_candidate.
Qed.

Lemma parse_testCaseSchema_inv (raw d : JsVal) :
  parse testCaseSchema raw = Some d ->
  exists tcs, d = JObj [("testCases", JArr tcs)] /\ Forall isTestCase tcs.
Proof.
  intros H. apply parse_object1_inv in H as (props & x & _ & E & ->).
  apply parse_array_inv in E as (elems & tcs & _ & -> & E).
  exists tcs. split; [reflexivity|].
  eapply mapM_parse_Forall; [|exact E]. apply parse_testCase.
Qed.

Lemma parse_rankSchema_inv (raw d : JsVal) :
  parse rankSchema raw = Some d ->
  exists best, d = JObj [("bestSolution", best)] /\ isCandidate best.
Proof.
  intros H. apply parse_object1_inv in H as (props & x & _ & E & ->).
  exists x. split; [reflexivity|]. eapply parse_candidate, E.
Qed.

End Schemas.

(** ** The nodes, one at a time *)

Section Nodes.

Lemma withStructuredOutput_inv model sch k p d :
  withStructuredOutput model sch k p = Ok d ->
  exists raw, model k p = Ok raw /\ parse sch raw = Some d.
Proof.
  unfold withStructuredOutput. destruct (model k p) as [raw|e]; simpl; [|discriminate].
  destruct (parse sch raw) as [d'|] eqn:Hp; intros H; inversion H; subst; eauto.
Qed.

Lemma generateCode_inv model k s u :
  generateCode model k s = Ok u ->
  exists sols,
    Forall isCandidate sols /\
    withStructuredOutput model codeGenSchema k (CodeGenPrompt (userQuery s))
      = Ok (JObj [("solutions", JArr sols)]) /\
    u = {| u_generation := Some (Some {| solutions := Some sols; testCases := None |});
           u_iterations := Some 1%Z;
           u_messages := Some [AIMessage "code_generation" (JObj [("solutions", JArr sols)])];
           u_userQuery := None; u_status := None; u_bestSolution := None;
           u_reflections := None |}.
Proof.
  unfold generateCode.
  destruct (withStructuredOutput _ _ _ _) as [d|e] eqn:E; simpl; [|discriminate].
  destruct (withStructuredOutput_inv _ _ _ _ _ E) as (raw & _ & Hp).
  apply parse_codeGenSchema_inv in Hp as (sols & -> & Hs).
  simpl. intros H; inversion H. eauto.
Qed.

Lemma generateTestCases_inv model k s u :
  generateTestCases model k s = Ok u ->
  exists tcs,
    Forall isTestCase tcs /\
    withStructuredOutput model testCaseSchema k (TestCasePrompt (userQuery s))
      = Ok (JObj [("testCases", JArr tcs)]) /\
    u = {| u_generation := Some (Some {| solutions := None; testCases := Some tcs |});
           u_messages := Some [AIMessage "test_case_generation" (JObj [("testCases", JArr tcs)])];
           u_userQuery := None; u_status := None; u_bestSolution := None;
           u_iterations := None; u_reflections := None |}.
Proof.
  unfold generateTestCases.
  destruct (withStructuredOutput _ _ _ _) as [d|e] eqn:E; simpl; [|discriminate].
  destruct (withStructuredOutput_inv _ _ _ _ _ E) as (raw & _ & Hp).
  apply parse_testCaseSchema_inv in Hp as (tcs & -> & Hs).
  simpl. intros H; inversion H. eauto.
Qed.

Lemma rankSolutions_inv model k s u :
  rankSolutions model k s = Ok u ->
  exists best,
    isCandidate best /\
    withStructuredOutput model rankSchema k (RankPrompt (g ← generation s; solutions g))
      = Ok (JObj [("bestSolution", best)]) /\
    u = {| u_bestSolution := Some best;
           u_messages := None; u_userQuery := None; u_status := None; u_generation := None;
           u_iterations := None; u_reflections := None |}.
Proof.
  unfold rankSolutions.
  destruct (withStructuredOutput _ _ _ _) as [d|e] eqn:E; simpl; [|discriminate].
  destruct (withStructuredOutput_inv _ _ _ _ _ E) as (raw & _ & Hp).
  apply parse_rankSchema_inv in Hp as (best & -> & Hb).
  simpl. intros H; inversion H. eauto.
Qed.

(** The solutions pool the generator fills is an array, as the state
    annotation says. *)
Lemma codeGen_solutions_array model k s u :
  generateCode model k s = Ok u -> exists sols, u_generation u = Some (Some (mkGeneration (Some sols) None)).
Proof. intros H. apply generateCode_inv in H as (sols & _ & _ & ->). eauto. Qed.

(** Each pass of the generator adds exactly 1 to [iterations]; no other
    node writes the counter. *)
Lemma generateCode_adds_one model k s u (s' : State) :
  generateCode model k s = Ok u -> iterations (applyUpdate s' u) = (iterations s' + 1)%Z.
Proof. intros H. apply generateCode_inv in H as (sols & _ & _ & ->). reflexivity. Qed.

Lemma generateTestCases_keeps_iterations model k s u (s' : State) :
  generateTestCases model k s = Ok u -> iterations (applyUpdate s' u) = iterations s'.
Proof. intros H. apply generateTestCases_inv in H as (tcs & _ & _ & ->). reflexivity. Qed.

Lemma rankSolutions_keeps_iterations model k s u (s' : State) :
  rankSolutions model k s = Ok u -> iterations (applyUpdate s' u) = iterations s'.
Proof. intros H. apply rankSolutions_inv in H as (best & _ & _ & ->). reflexivity. Qed.

Lemma statusUpdate_keeps_iterations (st : JsVal) (s' : State) :
  iterations (applyUpdate s' (statusUpdate st)) = iterations s'.
Proof. reflexivity. Qed.

End Nodes.

(** ** The retry router *)

Section Router.

(** The label the router returns for a retry is not a key of the path map
    the branch was registered with, whose only node key is "generate_code":
    the engine cannot follow it to the Solution Generator. *)
Lemma retry_label_unmapped :
  retryRouter failedOnceState = Ok "call_model" /\
  pathMap !! "call_model" = None /\
  route pathMap "call_model" = Throw (UnknownDestination "call_model").
Proof. repeat split; vm_compute; reflexivity. Qed.

(** The router asks for a retry only below the ceiling of three passes. *)
Lemma retry_only_below_ceiling (s : State) (label : string) :
  retryRouter s = Ok label -> label <> END -> (iterations s < 3)%Z.
Proof.
  unfold retryRouter. destruct (member (status s) "failure") as [failure|e]; simpl; [|discriminate].
  destruct (negb _); simpl; [intros H; inversion H; congruence|].
  destruct (3 <=? iterations s)%Z eqn:Hi; [intros H; inversion H; congruence|].
  intros _ _. apply Z.leb_gt in Hi. exact Hi.
Qed.

Lemma route_END : route pathMap END = Ok [].
Proof. vm_compute; reflexivity. Qed.

(** C1, as stated, fails: a failure is set (with an empty reason) and
    [iterations] is 1, below 3, yet the router returns the end marker. *)
Lemma retryRouter_ends_on_empty_reason :
  member (status emptyReasonState) "failure"
    = Ok (JObj [("reason", JStr ""); ("code", JStr "a + b")]) /\
  (iterations emptyReasonState < 3)%Z /\
  retryRouter emptyReasonState = Ok END.
Proof. repeat split. Qed.

(** C1, amended.  On a state whose [status] was written, the router returns
    the end marker exactly when [status.failure?.reason] is falsy (no
    failure, or a failure whose reason is missing or empty) or
    [iterations >= 3]; in every other case it returns a label that is not the
    end marker. *)
Theorem retryRouter_END_iff (s : State) (failure : JsVal) :
  member (status s) "failure" = Ok failure ->
  (retryRouter s = Ok END <->
     truthy (opt_member failure "reason") = false \/ (3 <= iterations s)%Z) /\
  (retryRouter s <> Ok END ->
     exists label, retryRouter s = Ok label /\ label <> END).
Proof.
  intros Hf. unfold retryRouter. rewrite Hf. simpl.
  destruct (truthy (opt_member failure "reason")) eqn:Ht; simpl.
  - destruct (3 <=? iterations s)%Z eqn:Hi.
    + apply Z.leb_le in Hi. split; [split; auto|]. intros H; contradiction.
    + apply Z.leb_gt in Hi. split.
      * split; [discriminate|]. intros [H|H]; [discriminate|lia].
      * intros _. exists "call_model". split; [reflexivity|discriminate].
  - split; [split; auto|]. intros H; contradiction.
Qed.

Lemma retryRouter_END_iff_witness :
  (retryRouter failedOnceState = Ok END <->
     truthy (opt_member (JObj [("reason", JStr "The code is not valid")]) "reason") = false
     \/ (3 <= iterations failedOnceState)%Z) /\
  (retryRouter failedOnceState <> Ok END ->
     exists label, retryRouter failedOnceState = Ok label /\ label <> END).
Proof. apply (retryRouter_END_iff failedOnceState). reflexivity. Defined.

End Router.

(** ** The validator *)

Section Validator.


(** C3.  On every state the validator returns an update that writes
    [status] alone; the status has a [success] record whose [code],
    [imports] and [prefix] are the reads [bestSolution?.code],
    [bestSolution?.imports] and [bestSolution?.prefix], and has no [failure].
    For a best solution that is a candidate the record equals it. *)
Theorem validateCode_reports_success (s : State) :
  let success :=
    JObj [("code", opt_member (bestSolution s) "code");
          ("imports", opt_member (bestSolution s) "imports");
          ("prefix", opt_member (bestSolution s) "prefix")] in
  let st := JObj [("success", success)] in
  validateCode s = Ok (statusUpdate st) /\
  member st "success" = Ok success /\
  member st "failure" = Ok JUndefined /\
  (isCandidate (bestSolution s) -> success = bestSolution s).
Proof.
  repeat split.
  intros (c & i & p & ->). reflexivity.
Qed.

Lemma validateCode_reports_success_witness :
  validateCode failedOnceState
    = Ok (statusUpdate (JObj [("success", sampleCandidate "a + b")])) /\
  JObj [("code", opt_member (bestSolution failedOnceState) "code");
        ("imports", opt_member (bestSolution failedOnceState) "imports");
        ("prefix", opt_member (bestSolution failedOnceState) "prefix")]
    = bestSolution failedOnceState.
Proof.
  destruct (validateCode_reports_success failedOnceState) as (Hv & _ & _ & Hc).
  split; [exact Hv|].
  apply Hc. exists "a + b", "", "adds two numbers". reflexivity.
Defined.

(** C10.  With [bestSolution] null the validator does not throw: it
    returns the success status whose three fields are all [undefined]. *)
Theorem validateCode_null_bestSolution (s : State) :
  bestSolution s = JNull ->
  validateCode s =
    Ok (statusUpdate
          (JObj [("success",
                  JObj [("code", JUndefined); ("imports", JUndefined); ("prefix", JUndefined)])])).
Proof. intros H. unfold validateCode, validateCode_body. rewrite H. reflexivity. Qed.

Lemma validateCode_null_bestSolution_witness :
  bestSolution unrankedState = JNull /\
  validateCode unrankedState =
    Ok (statusUpdate
          (JObj [("success",
                  JObj [("code", JUndefined); ("imports", JUndefined); ("prefix", JUndefined)])])).
Proof.
  split; [reflexivity|].
  apply (validateCode_null_bestSolution unrankedState). reflexivity.
Defined.



(** The else branch of the validator, which no state reaches while
    [isValid] is the constant true: the failure it would write has a
    [reason] and no [code]. *)
Theorem validateCode_failure_lacks_code (s : State) :
  let failure := [("reason", JStr "The code is not valid")] in
  validateCode_body false s = Ok (statusUpdate (JObj [("failure", JObj failure)])) /\
  has_prop "reason" failure = true /\
  has_prop "code" failure = false /\
  member (JObj failure) "code" = Ok JUndefined.
Proof. repeat split. Qed.

End Validator.

(** ** Merging updates *)

Section Merging.

Lemma pool_solutions_applyUpdate (s : State) (u : Update) :
  pool_solutions (applyUpdate s u) = pool_solutions s ++ new_solutions u.
Proof.
  unfold pool_solutions, new_solutions, applyUpdate; simpl.
  destruct (u_generation u) as [[n|]|]; destruct (generation s) as [p|]; simpl;
    rewrite ?app_nil_r; reflexivity.
Qed.

Lemma pool_testCases_applyUpdate (s : State) (u : Update) :
  pool_testCases (applyUpdate s u) = pool_testCases s ++ new_testCases u.
Proof.
  unfold pool_testCases, new_testCases, applyUpdate; simpl.
  destruct (u_generation u) as [[n|]|]; destruct (generation s) as [p|]; simpl;
    rewrite ?app_nil_r; reflexivity.
Qed.

(** C4.  Whatever updates are merged into a state, in whatever number, each
    pool afterwards is the pool before followed by the items of the updates
    in the order they were merged: nothing is removed, replaced or
    reordered. *)
Theorem pools_only_grow (s : State) (us : list Update) :
  pool_solutions (foldl applyUpdate s us)
    = pool_solutions s ++ concat (new_solutions <$> us) /\
  pool_testCases (foldl applyUpdate s us)
    = pool_testCases s ++ concat (new_testCases <$> us).
Proof.
  revert s. induction us as [|u us IH]; intros s; simpl.
  - rewrite !app_nil_r. split; reflexivity.
  - destruct (IH (applyUpdate s u)) as [-> ->].
    rewrite pool_solutions_applyUpdate, pool_testCases_applyUpdate, <- !app_assoc.
    split; reflexivity.
Qed.

(** The same, as a prefix order on the pools. *)
Lemma pools_prefix (s : State) (us : list Update) :
  pool_solutions s `prefix_of` pool_solutions (foldl applyUpdate s us) /\
  pool_testCases s `prefix_of` pool_testCases (foldl applyUpdate s us).
Proof.
  revert s. induction us as [|u us IH]; intros s; simpl.
  - split; reflexivity.
  - destruct (IH (applyUpdate s u)) as [Hs Ht]. split.
    + etrans; [|exact Hs]. rewrite pool_solutions_applyUpdate. by apply prefix_app_r.
    + etrans; [|exact Ht]. rewrite pool_testCases_applyUpdate. by apply prefix_app_r.
Qed.

End Merging.

(** ** The two concurrent branches *)

Section Branches.

(** C6, as stated, fails: the sample model answers the ranking prompt with
    a candidate that is not in the pool it was shown, and the ranker writes
    it. *)
Lemma rankSolutions_outside_pool :
  pool_solutions failedOnceState = [sampleCandidate "a + b"; sampleCandidate "b + a"] /\
  rankSolutions sampleModel 1 failedOnceState
    = Ok {| u_bestSolution := Some (sampleCandidate "return a + b");
            u_messages := None; u_userQuery := None; u_status := None; u_generation := None;
            u_iterations := None; u_reflections := None |} /\
  sampleCandidate "return a + b" ∉ pool_solutions failedOnceState.
Proof.
  repeat split.
  intros H. cbn in H. rewrite !elem_of_cons, elem_of_nil in H.
  destruct H as [H|[H|[]]]; discriminate H.
Qed.

(** C6, amended.  The best solution the ranker writes is the candidate (a
    record of three strings) that the model returned for the prompt made
    from the solutions accumulated when the ranker ran; the ranker writes
    nothing else. *)
Theorem rankSolutions_writes_model_choice model (k : nat) (s : State) (u : Update) :
  rankSolutions model k s = Ok u ->
  exists raw best,
    model k (RankPrompt (g ← generation s; solutions g)) = Ok raw /\
    parse rankSchema raw = Some (JObj [("bestSolution", best)]) /\
    isCandidate best /\
    u = {| u_bestSolution := Some best;
           u_messages := None; u_userQuery := None; u_status := None; u_generation := None;
           u_iterations := None; u_reflections := None |}.
Proof.
  intros H. apply rankSolutions_inv in H as (best & Hb & Hw & ->).
  apply withStructuredOutput_inv in Hw as (raw & Hm & Hp).
  exists raw, best. auto.
Qed.

Lemma rankSolutions_writes_model_choice_witness :
  exists raw best,
    sampleModel 1 (RankPrompt (g ← generation failedOnceState; solutions g)) = Ok raw /\
    parse rankSchema raw = Some (JObj [("bestSolution", best)]) /\
    isCandidate best /\
    {| u_bestSolution := Some (sampleCandidate "return a + b");
       u_messages := None; u_userQuery := None; u_status := None; u_generation := None;
       u_iterations := None; u_reflections := None |}
    = {| u_bestSolution := Some best;
         u_messages := None; u_userQuery := None; u_status := None; u_generation := None;
         u_iterations := None; u_reflections := None |}.
Proof.
  apply (rankSolutions_writes_model_choice sampleModel 1 failedOnceState). reflexivity.
Defined.

(** C8.  The update of the Test-Case Generator and the update of the Ranker
    can be merged into a state in either order: the result is the same. *)
Theorem branch_updates_commute model (k : nat) (s s' : State) (ut ur : Update) :
  generateTestCases model k s = Ok ut ->
  rankSolutions model k s = Ok ur ->
  applyUpdate (applyUpdate s' ut) ur = applyUpdate (applyUpdate s' ur) ut.
Proof.
  intros Ht Hr.
  apply generateTestCases_inv in Ht as (tcs & _ & _ & ->).
  apply rankSolutions_inv in Hr as (best & _ & _ & ->).
  reflexivity.
Qed.

Lemma branch_updates_commute_witness :
  exists ut ur,
    generateTestCases sampleModel 1 failedOnceState = Ok ut /\
    rankSolutions sampleModel 1 failedOnceState = Ok ur /\
    applyUpdate (applyUpdate failedOnceState ut) ur
      = applyUpdate (applyUpdate failedOnceState ur) ut.
Proof.
  eexists _, _. split; [reflexivity|]. split; [reflexivity|].
  apply (branch_updates_commute sampleModel 1 failedOnceState); reflexivity.
Defined.

(** C9.  Every item the Test-Case Generator's update brings is a record
    [{testCode, prefix}] of two strings; the update brings no solutions, and
    merging it appends exactly those items to the test-case pool. *)
Theorem testCases_have_schema_shape model (k : nat) (s : State) (u : Update) :
  generateTestCases model k s = Ok u ->
  Forall isTestCase (new_testCases u) /\
  new_solutions u = [] /\
  forall s', pool_testCases (applyUpdate s' u) = pool_testCases s' ++ new_testCases u.
Proof.
  intros H. split; [|split].
  - apply generateTestCases_inv in H as (tcs & Htcs & _ & ->). exact Htcs.
  - apply generateTestCases_inv in H as (tcs & _ & _ & ->). reflexivity.
  - intros s'. apply pool_testCases_applyUpdate.
Qed.

Lemma testCases_have_schema_shape_witness :
  Forall isTestCase [sampleTestCase "add(1, 2)"; sampleTestCase "add(0, 0)"] /\
  pool_testCases
    (applyUpdate failedOnceState
       {| u_generation :=
            Some (Some {| solutions := None;
                          testCases := Some [sampleTestCase "add(1, 2)"; sampleTestCase "add(0, 0)"] |});
          u_messages :=
            Some [AIMessage "test_case_generation"
                    (JObj [("testCases",
                            JArr [sampleTestCase "add(1, 2)"; sampleTestCase "add(0, 0)"])])];
          u_userQuery := None; u_status := None; u_bestSolution := None;
          u_iterations := None; u_reflections := None |})
  = [sampleTestCase "add(1, 2)"; sampleTestCase "add(1, 2)"; sampleTestCase "add(0, 0)"].
Proof.
  pose proof (testCases_have_schema_shape sampleModel 1 failedOnceState _ eq_refl)
    as (Hshape & _ & Happ).
  split; [exact Hshape|]. exact (Happ failedOnceState).
Defined.

End Branches.

(** ** Runs of the graph *)

Section Runs.

Variable model : ChatModel.
Variable race : Race.

Lemma superstep_generate (s : State) (tr : list Node) (k : nat) :
  superstep model race (mkConfig s [generate_code] tr k) =
  match generateCode model k s with
  | Ok u =>
      Continue (mkConfig (applyUpdate s u) [generate_test_cases; rank_solutions]
                         (tr ++ [generate_code]) (S k))
  | Throw e => Abort e (mkConfig s [] (tr ++ [generate_code]) k)
  end.
Proof.
  unfold superstep, runTask; simpl.
  destruct (generateCode model k s); reflexivity.
Qed.

Lemma superstep_branches (s : State) (tr : list Node) (k : nat) :
  superstep model race (mkConfig s [generate_test_cases; rank_solutions] tr k) =
  let started := tr ++ [generate_test_cases; rank_solutions] in
  match generateTestCases model k s, rankSolutions model k s with
  | Ok ut, Ok ur =>
      Continue (mkConfig (applyUpdate (applyUpdate s ut) ur) [validate_code] started (S k))
  | Throw e, Ok _ => Abort e (mkConfig s [] started k)
  | Ok _, Throw e => Abort e (mkConfig s [] started k)
  | Throw e1, Throw e2 =>
      Abort (race k [(generate_test_cases, e1); (rank_solutions, e2)])
            (mkConfig s [] started k)
  end.
Proof.
  unfold superstep, runTask; simpl.
  destruct (generateTestCases model k s), (rankSolutions model k s); reflexivity.
Qed.

Lemma superstep_validate (s : State) (tr : list Node) (k : nat) :
  superstep model race (mkConfig s [validate_code] tr k) =
  Finish (mkConfig (applyUpdate s (statusUpdate (successStatus (bestSolution s)))) []
                   (tr ++ [validate_code]) (S k)).
Proof.
  unfold superstep, runTask; simpl.
  unfold retryRouter; simpl. rewrite route_END. reflexivity.
Qed.

(** A run is one pass: the generator, the two branches, the validator. *)
Lemma invoke_unfold (input : Update) :
  invoke model race input =
  let s0 := applyUpdate emptyState input in
  match generateCode model 0 s0 with
  | Throw e => (Failed e, mkConfig s0 [] [generate_code] 0)
  | Ok u0 =>
      let s1 := applyUpdate s0 u0 in
      let started := [generate_code; generate_test_cases; rank_solutions] in
      match generateTestCases model 1 s1, rankSolutions model 1 s1 with
      | Ok ut, Ok ur =>
          let s2 := applyUpdate (applyUpdate s1 ut) ur in
          (Completed,
           mkConfig (applyUpdate s2 (statusUpdate (successStatus (bestSolution s2)))) []
                    (started ++ [validate_code]) 3)
      | Throw e, Ok _ => (Failed e, mkConfig s1 [] started 1)
      | Ok _, Throw e => (Failed e, mkConfig s1 [] started 1)
      | Throw e1, Throw e2 =>
          (Failed (race 1 [(generate_test_cases, e1); (rank_solutions, e2)]),
           mkConfig s1 [] started 1)
      end
  end.
Proof.
  unfold invoke, initialConfig, entry, recursionLimit.
  cbn [loop]. rewrite superstep_generate.
  destruct (generateCode model 0 _) as [u0|e]; [|reflexivity].
  cbn [loop]. rewrite superstep_branches. cbn zeta.
  destruct (generateTestCases model 1 _) as [ut|e1], (rankSolutions model 1 _) as [ur|e2];
    [|reflexivity..].
  cbn [loop]. rewrite superstep_validate. reflexivity.
Qed.

(** The configurations a run passes through are the three in which its
    supersteps begin. *)
Lemma reachable_inv (input : Update) (c : Config) :
  reachable model race input c ->
  let s0 := applyUpdate emptyState input in
  c = initialConfig input \/
  (exists u0,
     generateCode model 0 s0 = Ok u0 /\
     c = mkConfig (applyUpdate s0 u0) [generate_test_cases; rank_solutions]
                  [generate_code] 1) \/
  (exists u0 ut ur,
     generateCode model 0 s0 = Ok u0 /\
     generateTestCases model 1 (applyUpdate s0 u0) = Ok ut /\
     rankSolutions model 1 (applyUpdate s0 u0) = Ok ur /\
     c = mkConfig (applyUpdate (applyUpdate (applyUpdate s0 u0) ut) ur) [validate_code]
                  [generate_code; generate_test_cases; rank_solutions] 2).
Proof.
  intros Hr s0. induction Hr as [|c c' _ IH Hstep]; [left; reflexivity|].
  destruct IH as [->|[(u0 & Hg & ->)|(u0 & ut & ur & Hg & Ht & Hk & ->)]].
  - right; left. unfold initialConfig, entry in Hstep.
    rewrite superstep_generate in Hstep. fold s0 in Hstep.
    destruct (generateCode model 0 s0) as [u0|e]; inversion Hstep. eauto.
  - right; right. rewrite superstep_branches in Hstep. cbn zeta in Hstep.
    destruct (generateTestCases model 1 _) as [ut|e1] eqn:Ht,
             (rankSolutions model 1 _) as [ur|e2] eqn:Hk; inversion Hstep.
    exists u0, ut, ur. repeat split; assumption.
  - rewrite superstep_validate in Hstep. discriminate Hstep.
Qed.

(** Throughout a run the counter is its starting value plus the number of
    times the generator was started, which is at most once. *)
Lemma reachable_iterations (input : Update) (c : Config) :
  reachable model race input c ->
  iterations (state c)
    = (iterations (applyUpdate emptyState input)
       + Z.of_nat (executions generate_code (trace c)))%Z /\
  executions generate_code (trace c) <= 1.
Proof.
  intros Hr. apply reachable_inv in Hr. cbn zeta in Hr.
  destruct Hr as [->|[(u0 & Hg & ->)|(u0 & ut & ur & Hg & Ht & Hk & ->)]]; cbn [state trace].
  - cbn. split; lia.
  - rewrite (generateCode_adds_one _ _ _ _ _ Hg).
    split; [reflexivity|]. apply Nat.eq_le_incl. reflexivity.
  - rewrite (rankSolutions_keeps_iterations _ _ _ _ _ Hk).
    rewrite (generateTestCases_keeps_iterations _ _ _ _ _ Ht).
    rewrite (generateCode_adds_one _ _ _ _ _ Hg).
    split; [reflexivity|]. apply Nat.eq_le_incl. reflexivity.
Qed.

(** [loop] follows the step relation, and [invoke] never runs out of the
    recursion limit. *)
Lemma loop_ended (input : Update) (fuel : nat) (c : Config) :
  reachable model race input c ->
  ended model race input (loop fuel model race c).1 (loop fuel model race c).2 \/
  ((loop fuel model race c).1 = Failed GraphRecursionError /\
   reachable model race input (loop fuel model race c).2).
Proof.
  revert c. induction fuel as [|fuel IH]; intros c Hr; cbn [loop].
  - right. split; [reflexivity|exact Hr].
  - destruct (superstep model race c) as [c'|c'|e c'] eqn:Hstep; cbn [fst snd].
    + apply IH. econstructor; eassumption.
    + left. econstructor; eassumption.
    + left. econstructor; eassumption.
Qed.

Lemma invoke_nothing_scheduled (input : Update) (o : Outcome) (c : Config) :
  invoke model race input = (o, c) -> active c = [] /\ stepno c <= 3.
Proof.
  rewrite invoke_unfold. cbn zeta.
  destruct (generateCode model 0 _) as [u0|e]; [|intros H; inversion H; cbn; auto with lia].
  destruct (generateTestCases model 1 _) as [ut|e1], (rankSolutions model 1 _) as [ur|e2];
    intros H; inversion H; cbn; auto with lia.
Qed.

Lemma invoke_ended (input : Update) (o : Outcome) (c : Config) :
  invoke model race input = (o, c) -> ended model race input o c.
Proof.
  intros Hrun.
  destruct (loop_ended input recursionLimit (initialConfig input) (reachable_init _ _ _))
    as [He|[_ Hr]]; fold (invoke model race input) in *; rewrite Hrun in *.
  - exact He.
  - exfalso. apply invoke_nothing_scheduled in Hrun as [Hnil _].
    apply reachable_inv in Hr. cbn zeta in Hr. cbn [snd] in Hr.
    destruct Hr as [->|[(u0 & _ & ->)|(u0 & ut & ur & _ & _ & _ & ->)]]; discriminate Hnil.
Qed.

(** In a run the pools only grow from one superstep to the next. *)
Lemma superstep_pools_grow (c : Config) :
  let c' := match superstep model race c with
            | Continue c' | Finish c' | Abort _ c' => c'
            end in
  pool_solutions (state c) `prefix_of` pool_solutions (state c') /\
  pool_testCases (state c) `prefix_of` pool_testCases (state c').
Proof.
  unfold superstep.
  destruct (surfaced race (stepno c) _) as [e|]; cbn zeta.
  - split; reflexivity.
  - destruct (remove_dups _); apply pools_prefix.
Qed.

Lemma loop_pools_grow (fuel : nat) (c : Config) :
  pool_solutions (state c) `prefix_of` pool_solutions (state (loop fuel model race c).2) /\
  pool_testCases (state c) `prefix_of` pool_testCases (state (loop fuel model race c).2).
Proof.
  revert c. induction fuel as [|fuel IH]; intros c; cbn [loop].
  - split; reflexivity.
  - pose proof (superstep_pools_grow c) as Hstep. cbn zeta in Hstep.
    destruct (superstep model race c) as [c'|c'|e c']; cbn [snd]; [|exact Hstep..].
    destruct Hstep as [Hs Ht], (IH c') as [Hs' Ht'].
    split; etrans; eassumption.
Qed.

(** In every run started by [main], whatever the test-case pool holds when
    the run ends has the shape of the test-case schema. *)
Lemma run_testCases_shape (q : string) (o : Outcome) (c : Config) :
  invoke model race (mainInput q) = (o, c) ->
  Forall isTestCase (pool_testCases (state c)).
Proof.
  rewrite invoke_unfold. cbn zeta.
  destruct (generateCode model 0 _) as [u0|e] eqn:Hg.
  - apply generateCode_inv in Hg as (sols & _ & _ & ->).
    destruct (generateTestCases model 1 _) as [ut|e1] eqn:Ht,
             (rankSolutions model 1 _) as [ur|e2] eqn:Hr;
      intros H; inversion H; subst; clear H; cbn [state];
      try (cbn; constructor).
    apply generateTestCases_inv in Ht as (tcs & Htcs & _ & ->).
    apply rankSolutions_inv in Hr as (best & _ & _ & ->).
    rewrite !pool_testCases_applyUpdate. cbn. rewrite !app_nil_r. exact Htcs.
  - intros H; inversion H; subst; clear H. cbn. constructor.
Qed.

(** A completed run made exactly one pass. *)
Lemma completed_run_single_pass (input : Update) (c : Config) :
  invoke model race input = (Completed, c) ->
  trace c = [generate_code; generate_test_cases; rank_solutions; validate_code] /\
  iterations (state c) = (iterations (applyUpdate emptyState input) + 1)%Z.
Proof.
  rewrite invoke_unfold. cbn zeta.
  destruct (generateCode model 0 _) as [u0|e] eqn:Hg; [|discriminate].
  destruct (generateTestCases model 1 _) as [ut|e1] eqn:Ht,
           (rankSolutions model 1 _) as [ur|e2] eqn:Hr; try discriminate.
  intros H; inversion H; subst; clear H. split; [reflexivity|].
  cbn [state].
  rewrite statusUpdate_keeps_iterations.
  rewrite (rankSolutions_keeps_iterations _ _ _ _ _ Hr).
  rewrite (generateTestCases_keeps_iterations _ _ _ _ _ Ht).
  rewrite (generateCode_adds_one _ _ _ _ _ Hg). reflexivity.
Qed.

(** A run that did not complete stopped in the first or in the second
    superstep, with the counter at most one above its start. *)
Lemma failed_run_stops_early (input : Update) (e : Error) (c : Config) :
  invoke model race input = (Failed e, c) ->
  stepno c <= 1 /\
  (iterations (applyUpdate emptyState input) <= iterations (state c)
     <= iterations (applyUpdate emptyState input) + 1)%Z.
Proof.
  rewrite invoke_unfold. cbn zeta.
  destruct (generateCode model 0 _) as [u0|e0] eqn:Hg.
  - destruct (generateTestCases model 1 _) as [ut|e1],
             (rankSolutions model 1 _) as [ur|e2]; try discriminate;
      intros H; inversion H; subst; clear H; cbn [state stepno];
      rewrite (generateCode_adds_one _ _ _ _ _ Hg); (split; lia).
  - intros H; inversion H; subst; clear H; cbn [state stepno]. split; lia.
Qed.

End Runs.

Section RunProperties.

(** C2.  Take a run whose input leaves [iterations] at 0, as the input
    [main] builds does.  In every configuration the run passes through, and
    in the state it returns when it completes, [iterations] equals the number
    of times the Solution Generator was started.  [iterations] never exceeds
    3, however the run ends, and the run takes at most three supersteps, far
    below the recursion limit. *)
Theorem iterations_count_generator_runs
    (model : ChatModel) (race : Race) (input : Update) :
  iterations (applyUpdate emptyState input) = 0%Z ->
  (forall c, reachable model race input c ->
     iterations (state c) = Z.of_nat (executions generate_code (trace c)) /\
     (iterations (state c) <= 3)%Z) /\
  (forall o c, invoke model race input = (o, c) ->
     (o = Completed ->
      iterations (state c) = Z.of_nat (executions generate_code (trace c))) /\
     (iterations (state c) <= 3)%Z /\
     stepno c <= 3).
Proof.
  intros H0. split.
  - intros c Hr. destruct (reachable_iterations model race input c Hr) as [Hit Hle].
    rewrite H0 in Hit. split; lia.
  - intros o c Hrun.
    destruct (invoke_nothing_scheduled model race input o c Hrun) as [_ Hk].
    destruct o as [|e].
    + destruct (completed_run_single_pass model race input c Hrun) as [Htr Hit].
      rewrite H0 in Hit. split; [|split; [lia|exact Hk]].
      intros _. rewrite Hit, Htr. reflexivity.
    + destruct (failed_run_stops_early model race input e c Hrun) as [_ Hit].
      rewrite H0 in Hit. split; [discriminate|]. split; [lia|exact Hk].
Qed.

Lemma iterations_count_generator_runs_witness :
  iterations (applyUpdate emptyState (mainInput "write a function to add two numbers")) = 0%Z /\
  (main sampleModel firstListed).1 = Completed /\
  iterations (state (main sampleModel firstListed).2)
    = Z.of_nat (executions generate_code (trace (main sampleModel firstListed).2)) /\
  (iterations (state (main sampleModel firstListed).2) <= 3)%Z.
Proof.
  split; [reflexivity|]. split; [reflexivity|].
  destruct (iterations_count_generator_runs sampleModel firstListed
              (mainInput "write a function to add two numbers") eq_refl) as [_ Hend].
  destruct (Hend Completed (main sampleModel firstListed).2 eq_refl) as (Hcount & Hle & _).
  split; [apply Hcount; reflexivity|exact Hle].
Defined.

(** C7, as stated, fails: the model throws on the first Test-Case Generator
    call, and the run ends with another error, that of the Ranker's call,
    which failed in the same superstep. *)
Lemma outage_surfaces_other_error :
  withStructuredOutput outageModel testCaseSchema 1
      (TestCasePrompt (JStr "write a function to add two numbers"))
    = Throw (GatewayError "test cases: timeout") /\
  trace (main outageModel lastListed).2
    = [generate_code; generate_test_cases; rank_solutions] /\
  (main outageModel lastListed).1 = Failed (GatewayError "ranking: rate limit") /\
  (main outageModel lastListed).1 <> Failed (GatewayError "test cases: timeout").
Proof. repeat split. vm_compute. discriminate. Qed.

(** C7, amended.  If the model throws on the first Test-Case Generator call
    the run ends with an error that no node caught: that error when the
    Ranker's concurrent call returned, otherwise whichever of the two
    failures the engine surfaced.  In the state the run ends with the
    test-case pool is empty, and the validator was never started. *)
Theorem testCase_failure_ends_run
    (model : ChatModel) (race : Race) (q : string) (u0 : Update) (e : Error) :
  let s0 := applyUpdate emptyState (mainInput q) in
  generateCode model 0 s0 = Ok u0 ->
  withStructuredOutput model testCaseSchema 1 (TestCasePrompt (JStr q)) = Throw e ->
  exists c,
    invoke model race (mainInput q) =
      (Failed match rankSolutions model 1 (applyUpdate s0 u0) with
              | Ok _ => e
              | Throw e2 => race 1 [(generate_test_cases, e); (rank_solutions, e2)]
              end, c) /\
    pool_testCases (state c) = [] /\
    validate_code ∉ trace c.
Proof.
  intros s0 Hg Ht. rewrite invoke_unfold. cbn zeta. fold s0. rewrite Hg.
  apply generateCode_inv in Hg as (sols & _ & _ & ->).
  assert (Hgt : generateTestCases model 1
                  (applyUpdate s0
                     {| u_generation := Some (Some {| solutions := Some sols; testCases := None |});
                        u_iterations := Some 1%Z;
                        u_messages :=
                          Some [AIMessage "code_generation" (JObj [("solutions", JArr sols)])];
                        u_userQuery := None; u_status := None; u_bestSolution := None;
                        u_reflections := None |}) = Throw e).
  { unfold generateTestCases.
    change (userQuery (applyUpdate s0 _)) with (JStr q).
    rewrite Ht. reflexivity. }
  rewrite Hgt.
  destruct (rankSolutions model 1 _) as [ur|e2];
    (eexists; split; [reflexivity|]; split; [reflexivity|]);
    cbn; rewrite !elem_of_cons, elem_of_nil; intros [H|[H|[H|[]]]]; discriminate H.
Qed.

Lemma testCase_failure_ends_run_witness :
  exists c,
    invoke noTestsModel firstListed (mainInput "write a function to add two numbers") =
      (Failed (GatewayError "test cases: timeout"), c) /\
    pool_testCases (state c) = [] /\
    validate_code ∉ trace c.
Proof.
  apply (testCase_failure_ends_run noTestsModel firstListed
           "write a function to add two numbers"
           {| u_generation :=
                Some (Some {| solutions := Some [sampleCandidate "a + b"; sampleCandidate "b + a"];
                              testCases := None |});
              u_iterations := Some 1%Z;
              u_messages :=
                Some [AIMessage "code_generation"
                        (JObj [("solutions",
                                JArr [sampleCandidate "a + b"; sampleCandidate "b + a"])])];
              u_userQuery := None; u_status := None; u_bestSolution := None;
              u_reflections := None |}
           (GatewayError "test cases: timeout"));
    reflexivity.
Defined.

End RunProperties.

(** * Further properties of the code *)

(** ** The reducers *)

Section Reducers.

(** X1.  The reducer of [generation] is associative and has null as a left
    and right identity: how a series of writes is grouped does not change the
    pools. *)
Theorem generation_reducer_monoid :
  (forall a b c : option Generation,
     generation_reducer (generation_reducer a b) c
     = generation_reducer a (generation_reducer b c)) /\
  (forall a : option Generation, generation_reducer None a = a) /\
  (forall a : option Generation, generation_reducer a None = a).
Proof.
  split; [|split].
  - intros [a|] [b|] [c|]; simpl; try reflexivity.
    rewrite <- !app_assoc. reflexivity.
  - intros a. reflexivity.
  - intros [a|]; reflexivity.
Qed.

Lemma foldl_applyUpdate_snoc (s : State) (us : list Update) (u : Update) :
  foldl applyUpdate s (us ++ [u]) = applyUpdate (foldl applyUpdate s us) u.
Proof. apply foldl_snoc. Qed.

(** X2.  Over any series of merges the message log is the old log followed
    by the messages of each update in order, and [status] is the last status
    written (the old one if none was). *)
Theorem channels_accumulate (s : State) (us : list Update) :
  messages (foldl applyUpdate s us)
    = messages s ++ concat ((fun u => default [] (u_messages u)) <$> us) /\
  status (foldl applyUpdate s us) = default (status s) (last (omap u_status us)).
Proof.
  induction us as [|u us IH] using rev_ind.
  - simpl. rewrite app_nil_r. split; reflexivity.
  - destruct IH as (Hm & Hs).
    rewrite foldl_applyUpdate_snoc, !fmap_app, concat_app, omap_app.
    cbn [applyUpdate messages status fmap list_fmap concat omap list_omap].
    rewrite Hm, Hs. unfold messages_reducer, status_reducer.
    split.
    + destruct (u_messages u) as [ms|]; simpl; rewrite ?app_nil_r, <- ?app_assoc; reflexivity.
    + destruct (u_status u) as [st|]; simpl.
      * rewrite last_snoc. reflexivity.
      * rewrite app_nil_r. reflexivity.
Qed.

End Reducers.

(** ** The validator followed by the router *)

Section ValidateAndRoute.

(** X3.  Whatever the state held before - a failure from an earlier pass,
    any counter - once the validator's update is merged the router returns
    the end marker. *)
Theorem validate_then_route_ends (s : State) :
  exists u, validateCode s = Ok u /\ retryRouter (applyUpdate s u) = Ok END.
Proof.
  exists (statusUpdate (successStatus (bestSolution s))). split; reflexivity.
Qed.

(** X4.  Whatever label the router returns, following it through the path
    map of the conditional edge never schedules a node: the label is either
    the end marker, which schedules nothing, or the retry label, which the
    path map lacks. *)
Theorem conditional_edge_never_schedules (s : State) (label : string) :
  retryRouter s = Ok label ->
  (route pathMap label = Ok [] \/
   route pathMap label = Throw (UnknownDestination "call_model")) /\
  (forall targets, route pathMap label = Ok targets -> targets = []).
Proof.
  unfold retryRouter.
  destruct (member (status s) "failure") as [failure|e]; simpl; [|discriminate].
  destruct (negb _ || _); intros H; inversion H; subst; clear H.
  - rewrite route_END. split; [left; reflexivity|]. intros targets Ht; inversion Ht; reflexivity.
  - assert (Hr : route pathMap "call_model" = Throw (UnknownDestination "call_model"))
      by (vm_compute; reflexivity).
    rewrite Hr. split; [right; reflexivity|]. intros targets Ht; discriminate Ht.
Qed.

Lemma conditional_edge_never_schedules_witness :
  retryRouter failedOnceState = Ok "call_model" /\
  (route pathMap "call_model" = Ok [] \/
   route pathMap "call_model" = Throw (UnknownDestination "call_model")) /\
  (forall targets, route pathMap "call_model" = Ok targets -> targets = []).
Proof.
  split; [reflexivity|].
  apply (conditional_edge_never_schedules failedOnceState "call_model"). reflexivity.
Defined.

(** X5.  The router throws exactly when [status] is null or undefined, and
    then it is a TypeError; on any other status it returns a label. *)
Theorem retryRouter_throws_iff (s : State) :
  (retryRouter s = Throw TypeError <-> nullish (status s) = true) /\
  (forall e, retryRouter s = Throw e -> e = TypeError) /\
  (nullish (status s) = false -> exists label, retryRouter s = Ok label).
Proof.
  unfold retryRouter. destruct (nullish (status s)) eqn:Hn.
  - assert (Hm : member (status s) "failure" = Throw TypeError)
      by (destruct (status s); try discriminate Hn; reflexivity).
    rewrite Hm. simpl. split; [split; reflexivity|].
    split; [intros e He; inversion He; reflexivity|discriminate].
  - assert (Hm : exists failure, member (status s) "failure" = Ok failure)
      by (destruct (status s); try discriminate Hn; eauto).
    destruct Hm as [failure ->]. simpl.
    destruct (negb _ || _);
      (split; [split; discriminate|]; split; [discriminate|eauto]).
Qed.

Lemma retryRouter_throws_iff_witness :
  retryRouter (sampleState JUndefined JNull 1) = Throw TypeError /\
  exists label, retryRouter failedOnceState = Ok label.
Proof.
  split.
  - apply (retryRouter_throws_iff (sampleState JUndefined JNull 1)). reflexivity.
  - apply (retryRouter_throws_iff failedOnceState). reflexivity.
Defined.

(** X6.  The failure the validator's else branch writes, read by the router:
    below three passes the router answers with the retry label, which the
    conditional edge cannot follow, so the run would end with an
    unknown-destination error instead of a second pass; from three passes on
    it answers with the end marker and the failure stays in [status]. *)
Theorem failure_branch_then_route (s : State) :
  exists u,
    validateCode_body false s = Ok u /\
    ((iterations s < 3)%Z ->
       (label ← retryRouter (applyUpdate s u); route pathMap label)
       = Throw (UnknownDestination "call_model")) /\
    ((3 <= iterations s)%Z ->
       retryRouter (applyUpdate s u) = Ok END /\
       member (status (applyUpdate s u)) "failure"
       = Ok (JObj [("reason", JStr "The code is not valid")])).
Proof.
  eexists. split; [reflexivity|]. split.
  - intros Hlt. unfold retryRouter. cbn [applyUpdate status iterations write u_status u_iterations
                                          status_reducer member lookup_prop opt_member].
    change (String.eqb "failure" "failure") with true. cbn iota.
    cbn [mbind result_bind]. cbn [opt_member lookup_prop].
    change (String.eqb "reason" "reason") with true. cbn iota.
    change (truthy (JStr "The code is not valid")) with true. cbn [negb orb].
    destruct (3 <=? iterations s)%Z eqn:Hi; [apply Z.leb_le in Hi; lia|].
    vm_compute. reflexivity.
  - intros Hge. split; [|reflexivity].
    unfold retryRouter. cbn [applyUpdate status iterations write u_status u_iterations
                              status_reducer].
    change (member _ "failure") with (Ok (JObj [("reason", JStr "The code is not valid")])).
    cbn [mbind result_bind].
    apply Z.leb_le in Hge. rewrite Hge. rewrite orb_true_r. reflexivity.
Qed.

Lemma failure_branch_then_route_witness :
  (iterations failedOnceState < 3)%Z /\
  (3 <= iterations (sampleState JUndefined JNull 3))%Z /\
  exists u u',
    validateCode_body false failedOnceState = Ok u /\
    (label ← retryRouter (applyUpdate failedOnceState u); route pathMap label)
      = Throw (UnknownDestination "call_model") /\
    validateCode_body false (sampleState JUndefined JNull 3) = Ok u' /\
    retryRouter (applyUpdate (sampleState JUndefined JNull 3) u') = Ok END.
Proof.
  split; [reflexivity|]. split; [discriminate|].
  destruct (failure_branch_then_route failedOnceState) as (u & Hu & Hlow & _).
  destruct (failure_branch_then_route (sampleState JUndefined JNull 3)) as (u' & Hu' & _ & Hhigh).
  exists u, u'. split; [exact Hu|]. split; [apply Hlow; reflexivity|].
  split; [exact Hu'|]. apply Hhigh. discriminate.
Defined.

End ValidateAndRoute.

(** ** What each node reads *)

Section Reads.

(** X7.  The generator and the Test-Case Generator read [userQuery] and
    nothing else: two states with the same query get the same answer, so a
    later pass would send the same prompt whatever failure or solutions the
    state holds.  The Ranker reads the solutions pool only, and the validator
    reads [bestSolution] only, not the test cases. *)
Theorem nodes_read_only (model : ChatModel) (k : nat) (s s' : State) :
  (userQuery s = userQuery s' ->
     generateCode model k s = generateCode model k s' /\
     generateTestCases model k s = generateTestCases model k s') /\
  ((g ← generation s; solutions g) = (g ← generation s'; solutions g) ->
     rankSolutions model k s = rankSolutions model k s') /\
  (bestSolution s = bestSolution s' -> validateCode s = validateCode s').
Proof.
  split; [|split].
  - intros Hq. unfold generateCode, generateTestCases. rewrite Hq. split; reflexivity.
  - intros Hp. unfold rankSolutions. rewrite Hp. reflexivity.
  - intros Hb. unfold validateCode, validateCode_body. rewrite Hb. reflexivity.
Qed.

Lemma nodes_read_only_witness :
  generateCode sampleModel 3 failedOnceState = generateCode sampleModel 3 unrankedState /\
  generateTestCases sampleModel 3 failedOnceState
    = generateTestCases sampleModel 3 unrankedState /\
  rankSolutions sampleModel 3 failedOnceState = rankSolutions sampleModel 3 unrankedState /\
  validateCode failedOnceState = validateCode emptyReasonState.
Proof.
  destruct (nodes_read_only sampleModel 3 failedOnceState unrankedState) as (Hq & Hp & _).
  destruct (nodes_read_only sampleModel 3 failedOnceState emptyReasonState) as (_ & _ & Hb).
  destruct (Hq eq_refl) as [Hg Ht].
  split; [exact Hg|]. split; [exact Ht|]. split; [exact (Hp eq_refl)|exact (Hb eq_refl)].
Defined.

End Reads.

(** ** Whole runs *)

Section WholeRuns.

Variable model : ChatModel.
Variable race : Race.

(** The state a completed run of [main]'s input returns. *)
Lemma completed_run_state (q : string) (c : Config) :
  invoke model race (mainInput q) = (Completed, c) ->
  exists sols tcs best,
    Forall isCandidate sols /\ Forall isTestCase tcs /\ isCandidate best /\
    state c =
      {| messages :=
           [HumanMessage q;
            AIMessage "code_generation" (JObj [("solutions", JArr sols)]);
            AIMessage "test_case_generation" (JObj [("testCases", JArr tcs)])];
         userQuery := JStr q;
         status := JObj [("success", best)];
         generation := Some {| solutions := Some sols; testCases := Some tcs |};
         bestSolution := best;
         iterations := 1;
         reflections := [] |}.
Proof.
  rewrite invoke_unfold. cbn zeta.
  destruct (generateCode model 0 _) as [u0|e] eqn:Hg; [|discriminate].
  apply generateCode_inv in Hg as (sols & Hsols & _ & ->).
  destruct (generateTestCases model 1 _) as [ut|e1] eqn:Ht; [|destruct (rankSolutions _ _ _); discriminate].
  apply generateTestCases_inv in Ht as (tcs & Htcs & _ & ->).
  destruct (rankSolutions model 1 _) as [ur|e2] eqn:Hr; [|discriminate].
  apply rankSolutions_inv in Hr as (best & Hbest & _ & ->).
  intros H; inversion H; subst; clear H.
  exists sols, tcs, best. repeat (split; [assumption|]).
  destruct Hbest as (code & imports & prefix & ->).
  unfold applyUpdate, statusUpdate, successStatus, mainInput, emptyState, write,
    generation_reducer, messages_reducer; cbn.
  rewrite app_nil_r. reflexivity.
Qed.

(** X8.  In the state a completed run returns, [status.success] is the best
    solution, field for field, the best solution is a candidate of three
    strings, [status] has no failure, and the counter is 1. *)
Theorem completed_run_success_is_best (q : string) (c : Config) :
  invoke model race (mainInput q) = (Completed, c) ->
  isCandidate (bestSolution (state c)) /\
  member (status (state c)) "success" = Ok (bestSolution (state c)) /\
  member (status (state c)) "failure" = Ok JUndefined /\
  iterations (state c) = 1%Z.
Proof.
  intros Hrun. apply completed_run_state in Hrun as (sols & tcs & best & _ & _ & Hbest & ->).
  cbn [bestSolution status iterations]. repeat split. exact Hbest.
Qed.

(** X9.  In the state a completed run returns, the message log is the query
    followed by one message per generator, and each message carries exactly
    the list its pool holds; the solutions are candidates and the test cases
    have the shape of the test-case schema. *)
Theorem completed_run_log_mirrors_pools (q : string) (c : Config) :
  invoke model race (mainInput q) = (Completed, c) ->
  messages (state c) =
    [HumanMessage q;
     AIMessage "code_generation" (JObj [("solutions", JArr (pool_solutions (state c)))]);
     AIMessage "test_case_generation" (JObj [("testCases", JArr (pool_testCases (state c)))])] /\
  Forall isCandidate (pool_solutions (state c)) /\
  Forall isTestCase (pool_testCases (state c)).
Proof.
  intros Hrun. apply completed_run_state in Hrun as (sols & tcs & best & Hs & Ht & _ & ->).
  cbn. repeat split; assumption.
Qed.

(** X10.  In every run, on any input, the Solution Generator is started
    exactly once and no node is started twice: no run makes a second pass. *)
Theorem every_node_at_most_once (input : Update) (o : Outcome) (c : Config) :
  invoke model race input = (o, c) ->
  executions generate_code (trace c) = 1 /\
  forall n : Node, executions n (trace c) <= 1.
Proof.
  rewrite invoke_unfold. cbn zeta.
  destruct (generateCode model 0 _) as [u0|e].
  - destruct (generateTestCases model 1 _) as [ut|e1], (rankSolutions model 1 _) as [ur|e2];
      intros H; inversion H; subst; clear H; cbn [trace];
      (split; [reflexivity|]); intros [| | |]; vm_compute; lia.
  - intros H; inversion H; subst; clear H; cbn [trace].
    split; [reflexivity|]. intros [| | |]; vm_compute; lia.
Qed.

(** X11.  When the first call of the model fails, or answers with something
    the solutions schema rejects, the run ends with that error (the parser's
    exception in the second case) after starting the generator alone, and
    the state is the input as written: no solutions, no test cases. *)
Theorem generator_failure_ends_run (input : Update) :
  let s0 := applyUpdate emptyState input in
  let aborted := mkConfig s0 [] [generate_code] 0 in
  (forall e, model 0 (CodeGenPrompt (userQuery s0)) = Throw e ->
     invoke model race input = (Failed e, aborted)) /\
  (forall raw, model 0 (CodeGenPrompt (userQuery s0)) = Ok raw ->
     parse codeGenSchema raw = None ->
     invoke model race input = (Failed OutputParserException, aborted)) /\
  pool_solutions s0 = new_solutions input /\
  pool_testCases s0 = new_testCases input.
Proof.
  intros s0 aborted. split; [|split; [|split]].
  - intros e He. rewrite invoke_unfold. cbn zeta. fold s0.
    unfold generateCode, withStructuredOutput. rewrite He. reflexivity.
  - intros raw Hraw Hp. rewrite invoke_unfold. cbn zeta. fold s0.
    unfold generateCode, withStructuredOutput. rewrite Hraw. cbn [mbind result_bind].
    rewrite Hp. reflexivity.
  - unfold s0. rewrite pool_solutions_applyUpdate. reflexivity.
  - unfold s0. rewrite pool_testCases_applyUpdate. reflexivity.
Qed.

End WholeRuns.

Lemma completed_run_success_is_best_witness :
  (main sampleModel firstListed).1 = Completed /\
  member (status (state (main sampleModel firstListed).2)) "success"
    = Ok (sampleCandidate "return a + b") /\
  bestSolution (state (main sampleModel firstListed).2) = sampleCandidate "return a + b".
Proof.
  split; [reflexivity|].
  destruct (completed_run_success_is_best sampleModel firstListed
              "write a function to add two numbers" (main sampleModel firstListed).2 eq_refl)
    as (_ & Hs & _ & _).
  split; [exact Hs|reflexivity].
Defined.

Lemma completed_run_log_mirrors_pools_witness :
  (main sampleModel firstListed).1 = Completed /\
  Forall isCandidate (pool_solutions (state (main sampleModel firstListed).2)) /\
  Forall isTestCase (pool_testCases (state (main sampleModel firstListed).2)) /\
  length (messages (state (main sampleModel firstListed).2)) = 3.
Proof.
  split; [reflexivity|].
  destruct (completed_run_log_mirrors_pools sampleModel firstListed
              "write a function to add two numbers" (main sampleModel firstListed).2 eq_refl)
    as (Hm & Hs & Ht).
  split; [exact Hs|]. split; [exact Ht|]. rewrite Hm. reflexivity.
Defined.

Lemma every_node_at_most_once_witness :
  (main outageModel lastListed).1 = Failed (GatewayError "ranking: rate limit") /\
  executions generate_code (trace (main outageModel lastListed).2) = 1 /\
  forall n : Node, executions n (trace (main outageModel lastListed).2) <= 1.
Proof.
  split; [reflexivity|].
  apply (every_node_at_most_once outageModel lastListed
           (mainInput "write a function to add two numbers")
           (Failed (GatewayError "ranking: rate limit"))).
  reflexivity.
Defined.

Lemma generator_failure_ends_run_witness :
  (main unreachableModel firstListed).1 = Failed (GatewayError "no api key") /\
  (main sloppyModel firstListed).1 = Failed OutputParserException /\
  trace (main sloppyModel firstListed).2 = [generate_code].
Proof.
  destruct (generator_failure_ends_run unreachableModel firstListed
              (mainInput "write a function to add two numbers")) as (Hthrow & _ & _ & _).
  destruct (generator_failure_ends_run sloppyModel firstListed
              (mainInput "write a function to add two numbers")) as (_ & Hparse & _ & _).
  unfold main.
  rewrite (Hthrow (GatewayError "no api key") eq_refl).
  rewrite (Hparse _ eq_refl eq_refl).
  repeat split.
Defined.

(** ** The schemas *)

Section SchemaProperties.

(** X12.  The schema of a solution accepts a value exactly when it is an
    object whose [code], [imports] and [prefix] are strings, and it returns
    those three fields and nothing else; likewise the schema of a test case
    with [testCode] and [prefix].  A missing or non-string field is a failed
    parse, any further field is dropped. *)
Theorem item_schemas_accept_iff (v d : JsVal) :
  (parse (z_object [("code", z_string); ("imports", z_string); ("prefix", z_string)]) v = Some d
   <-> exists props code imports prefix,
         v = JObj props /\
         lookup_prop "code" props = JStr code /\
         lookup_prop "imports" props = JStr imports /\
         lookup_prop "prefix" props = JStr prefix /\
         d = JObj [("code", JStr code); ("imports", JStr imports); ("prefix", JStr prefix)]) /\
  (parse (z_object [("testCode", z_string); ("prefix", z_string)]) v = Some d
   <-> exists props testCode prefix,
         v = JObj props /\
         lookup_prop "testCode" props = JStr testCode /\
         lookup_prop "prefix" props = JStr prefix /\
         d = JObj [("testCode", JStr testCode); ("prefix", JStr prefix)]).
Proof.
  split; split.
  - destruct v as [| | | | |?|props]; simpl; try discriminate.
    destruct (lookup_prop "code" props) eqn:Hc; simpl; try discriminate.
    destruct (lookup_prop "imports" props) eqn:Hi; simpl; try discriminate.
    destruct (lookup_prop "prefix" props) eqn:Hp; simpl; try discriminate.
    intros H; inversion H. eexists _, _, _, _. repeat split; assumption.
  - intros (props & c & i & p & -> & Hc & Hi & Hp & ->). simpl.
    rewrite Hc, Hi, Hp. reflexivity.
  - destruct v as [| | | | |?|props]; simpl; try discriminate.
    destruct (lookup_prop "testCode" props) eqn:Hc; simpl; try discriminate.
    destruct (lookup_prop "prefix" props) eqn:Hp; simpl; try discriminate.
    intros H; inversion H. eexists _, _, _. repeat split; assumption.
  - intros (props & c & p & -> & Hc & Hp & ->). simpl.
    rewrite Hc, Hp. reflexivity.
Qed.

Lemma mapM_parse_fixed (item : Schema) (l : list JsVal) :
  Forall (fun x => parse item x = Some x) l -> mapM (parse item) l = Some l.
Proof.
  intros H. apply mapM_Some_2. induction H; constructor; assumption.
Qed.

Lemma candidate_revalidates (x : JsVal) :
  isCandidate x ->
  parse (z_object [("code", z_string); ("imports", z_string); ("prefix", z_string)]) x = Some x.
Proof. intros (c & i & p & ->). reflexivity. Qed.

Lemma testCase_revalidates (x : JsVal) :
  isTestCase x ->
  parse (z_object [("testCode", z_string); ("prefix", z_string)]) x = Some x.
Proof. intros (c & p & ->). reflexivity. Qed.

Lemma parse_object1_intro (k : string) (sch : Schema) (props : list (string * JsVal)) (x : JsVal) :
  parse sch (lookup_prop k props) = Some x ->
  parse (z_object [(k, sch)]) (JObj props) = Some (JObj [(k, x)]).
Proof. intros H. simpl. rewrite H. reflexivity. Qed.

Lemma parse_array_intro (item : Schema) (l ds : list JsVal) :
  mapM (parse item) l = Some ds -> parse (z_array item) (JArr l) = Some (JArr ds).
Proof. intros H. simpl. rewrite H. reflexivity. Qed.

(** X13.  What a schema returned passes the same schema again, unchanged:
    validated data can be validated a second time without loss. *)
Theorem schemas_revalidate (raw d : JsVal) :
  (parse codeGenSchema raw = Some d -> parse codeGenSchema d = Some d) /\
  (parse testCaseSchema raw = Some d -> parse testCaseSchema d = Some d) /\
  (parse rankSchema raw = Some d -> parse rankSchema d = Some d).
Proof.
  split; [|split]; intros H.
  - apply parse_codeGenSchema_inv in H as (sols & -> & Hs).
    apply parse_object1_intro, parse_array_intro, mapM_parse_fixed.
    eapply Forall_impl; [exact Hs|]. apply candidate_revalidates.
  - apply parse_testCaseSchema_inv in H as (tcs & -> & Hs).
    apply parse_object1_intro, parse_array_intro, mapM_parse_fixed.
    eapply Forall_impl; [exact Hs|]. apply testCase_revalidates.
  - apply parse_rankSchema_inv in H as (best & -> & (c & i & p & ->)). reflexivity.
Qed.

Lemma schemas_revalidate_witness :
  parse codeGenSchema
    (JObj [("solutions", JArr [sampleCandidate "a + b"]); ("note", JStr "dropped")])
    = Some (JObj [("solutions", JArr [sampleCandidate "a + b"])]) /\
  parse codeGenSchema (JObj [("solutions", JArr [sampleCandidate "a + b"])])
    = Some (JObj [("solutions", JArr [sampleCandidate "a + b"])]).
Proof.
  split; [reflexivity|].
  apply (schemas_revalidate
           (JObj [("solutions", JArr [sampleCandidate "a + b"]); ("note", JStr "dropped")])).
  reflexivity.
Defined.

(** X14.  The ranking schema accepts every solution the solutions schema
    returned, as it is: the Ranker's answer may be any element of the pool,
    word for word. *)
Theorem rankSchema_accepts_pool_elements (raw : JsVal) (sols : list JsVal) (x : JsVal) :
  parse codeGenSchema raw = Some (JObj [("solutions", JArr sols)]) ->
  x ∈ sols ->
  parse rankSchema (JObj [("bestSolution", x)]) = Some (JObj [("bestSolution", x)]).
Proof.
  intros H Hx. apply parse_codeGenSchema_inv in H as (sols' & Heq & Hs).
  inversion Heq; subst sols'.
  rewrite Forall_forall in Hs. destruct (Hs x Hx) as (c & i & p & ->). reflexivity.
Qed.

Lemma rankSchema_accepts_pool_elements_witness :
  parse rankSchema (JObj [("bestSolution", sampleCandidate "b + a")])
  = Some (JObj [("bestSolution", sampleCandidate "b + a")]).
Proof.
  apply (rankSchema_accepts_pool_elements
           (JObj [("solutions", JArr [sampleCandidate "a + b"; sampleCandidate "b + a"])])
           [sampleCandidate "a + b"; sampleCandidate "b + a"]).
  - reflexivity.
  - rewrite !elem_of_cons. right; left; reflexivity.
Defined.

End SchemaProperties.

(** ** Saving the picture of the graph *)

Section Visualizer.

Lemma graphsDir_eq (dirname : Path) : graphsDir dirname = parent dirname ++ ["graphs"].
Proof. reflexivity. Qed.

Lemma graphPng_eq (dirname : Path) : graphPng dirname = graphsDir dirname ++ ["graph.png"].
Proof. reflexivity. Qed.

Lemma parent_graphPng (dirname : Path) : parent (graphPng dirname) = graphsDir dirname.
Proof. rewrite graphPng_eq. unfold parent. apply removelast_last. Qed.

Lemma parent_graphsDir (dirname : Path) : parent (graphsDir dirname) = parent dirname.
Proof. rewrite graphsDir_eq. unfold parent at 1. apply removelast_last. Qed.

Lemma graphPng_not_graphsDir (dirname : Path) : graphPng dirname <> graphsDir dirname.
Proof.
  rewrite graphPng_eq. intros H. apply (f_equal length) in H.
  rewrite length_app in H. simpl in H. lia.
Qed.

Lemma isDir_true (p : Path) (fs : FileSystem) : isDir p fs = true <-> p ∈ dirs fs.
Proof. unfold isDir. apply bool_decide_eq_true. Qed.

Lemma isDir_false (p : Path) (fs : FileSystem) : isDir p fs = false <-> p ∉ dirs fs.
Proof. unfold isDir. apply bool_decide_eq_false. Qed.

(** The run of [visualizeGraph] on a picture, when nothing is in the way. *)
Lemma visualizeGraph_run (png : list Init.Byte.byte) (dirname : Path) (fs : FileSystem) :
  isDir (parent dirname) fs = true ->
  isFile (graphsDir dirname) fs = false ->
  isDir (graphPng dirname) fs = false ->
  visualizeGraph (Done png) dirname fs =
    ({| dirs := {[ graphsDir dirname ]} ∪ dirs fs;
        files := <[ graphPng dirname := png ]> (files fs) |}, Done png).
Proof.
  intros Hup Hfile Hpng. unfold visualizeGraph.
  fold (graphsDir dirname). fold (graphPng dirname).
  unfold existsSync. rewrite Hfile, orb_false_r.
  destruct (isDir (graphsDir dirname) fs) eqn:Hdir; cbn [negb].
  - unfold writeFileSync. rewrite Hpng, parent_graphPng, Hdir.
    apply isDir_true in Hdir.
    rewrite (subseteq_union_1_L {[graphsDir dirname]} (dirs fs)); [reflexivity|].
    apply singleton_subseteq_l, Hdir.
  - unfold mkdirSync, existsSync. rewrite Hdir, Hfile, parent_graphsDir, Hup. cbn [orb].
    unfold writeFileSync, isDir. cbn [dirs files].
    rewrite parent_graphPng.
    rewrite (bool_decide_eq_false_2 (graphPng dirname ∈ _)).
    + rewrite (bool_decide_eq_true_2 (graphsDir dirname ∈ _)); [reflexivity|set_solver].
    + apply isDir_false in Hpng. rewrite elem_of_union, elem_of_singleton.
      intros [Heq|Hin]; [exact (graphPng_not_graphsDir dirname Heq)|exact (Hpng Hin)].
Qed.

(** X15.  On a file system where the directory above the module's exists,
    no regular file is named graphs there and graph.png is not a directory,
    [visualizeGraph] succeeds and returns the picture; afterwards graphs is
    a directory, graph.png in it holds exactly the picture, every other file
    is as it was and no directory is gone. *)
Theorem visualizeGraph_saves_picture
    (png : list Init.Byte.byte) (dirname : Path) (fs : FileSystem) :
  isDir (parent dirname) fs = true ->
  isFile (graphsDir dirname) fs = false ->
  isDir (graphPng dirname) fs = false ->
  exists fs',
    visualizeGraph (Done png) dirname fs = (fs', Done png) /\
    isDir (graphsDir dirname) fs' = true /\
    files fs' !! graphPng dirname = Some png /\
    (forall p, p <> graphPng dirname -> files fs' !! p = files fs !! p) /\
    dirs fs ⊆ dirs fs'.
Proof.
  intros Hup Hfile Hpng. eexists. split; [apply visualizeGraph_run; assumption|].
  cbn [dirs files]. split; [|split; [|split]].
  - apply isDir_true. cbn [dirs]. set_solver.
  - apply lookup_insert_eq.
  - intros p Hp. apply lookup_insert_ne. congruence.
  - set_solver.
Qed.

Lemma visualizeGraph_saves_picture_witness :
  exists fs',
    visualizeGraph (Done samplePng) sampleDirname sampleFs = (fs', Done samplePng) /\
    isDir ["AlphaCodium"; "graphs"] fs' = true /\
    files fs' !! ["AlphaCodium"; "graphs"; "graph.png"] = Some samplePng.
Proof.
  destruct (visualizeGraph_saves_picture samplePng sampleDirname sampleFs)
    as (fs' & Hrun & Hdir & Hfile & _); [reflexivity..|].
  exists fs'. split; [exact Hrun|]. split; [exact Hdir|exact Hfile].
Defined.

(** X16.  Whatever the drawing gives and whatever the file system holds,
    [visualizeGraph] removes no directory and changes no file other than
    graph.png; and when it ends with an error, no file at all has changed. *)
Theorem visualizeGraph_touches_only_the_picture
    (image : IoResult (list Init.Byte.byte)) (dirname : Path) (fs : FileSystem) :
  dirs fs ⊆ dirs (visualizeGraph image dirname fs).1 /\
  (forall p, p <> graphPng dirname ->
     files (visualizeGraph image dirname fs).1 !! p = files fs !! p) /\
  (forall e, (visualizeGraph image dirname fs).2 = Raise e ->
     files (visualizeGraph image dirname fs).1 = files fs).
Proof.
  unfold visualizeGraph. fold (graphsDir dirname). fold (graphPng dirname).
  destruct image as [png|e0]; [|cbn; auto].
  assert (Hwrite : forall fs1 : FileSystem,
            dirs fs ⊆ dirs fs1 -> files fs1 = files fs ->
            let r := writeFileSync (graphPng dirname) png fs1 in
            dirs fs ⊆ dirs r.1 /\
            (forall p, p <> graphPng dirname -> files r.1 !! p = files fs !! p) /\
            (forall e, r.2 = Raise e -> files r.1 = files fs)).
  { intros fs1 Hd Hf. unfold writeFileSync.
    destruct (isDir (graphPng dirname) fs1); [cbn; rewrite Hf; auto|].
    destruct (isDir (parent (graphPng dirname)) fs1); cbn; rewrite Hf; [|auto].
    split; [exact Hd|]. split; [|discriminate].
    intros p Hp. apply lookup_insert_ne. congruence. }
  destruct (negb (existsSync (graphsDir dirname) fs)).
  - unfold mkdirSync.
    destruct (existsSync (graphsDir dirname) fs); [cbn; auto|].
    destruct (isDir (parent (graphsDir dirname)) fs); [|cbn; auto].
    specialize (Hwrite {| dirs := {[graphsDir dirname]} ∪ dirs fs; files := files fs |}).
    cbn zeta in Hwrite.
    destruct Hwrite as (Hd & Hf & He); [cbn; set_solver|reflexivity|].
    destruct (writeFileSync (graphPng dirname) png _) as [fs2 [[]|e]]; cbn in *;
      (split; [exact Hd|]; split; [exact Hf|]);
      [discriminate|intros e0 _; apply (He e); reflexivity].
  - specialize (Hwrite fs). cbn zeta in Hwrite.
    destruct Hwrite as (Hd & Hf & He); [set_solver|reflexivity|].
    destruct (writeFileSync (graphPng dirname) png fs) as [fs2 [[]|e]]; cbn in *;
      (split; [exact Hd|]; split; [exact Hf|]);
      [discriminate|intros e0 _; apply (He e); reflexivity].
Qed.

(** X17.  Saving the same picture twice is the same as saving it once: the
    second call succeeds on what the first left and leaves it as it is. *)
Theorem visualizeGraph_twice
    (png : list Init.Byte.byte) (dirname : Path) (fs : FileSystem) :
  isDir (parent dirname) fs = true ->
  isFile (graphsDir dirname) fs = false ->
  isDir (graphPng dirname) fs = false ->
  visualizeGraph (Done png) dirname (visualizeGraph (Done png) dirname fs).1
  = visualizeGraph (Done png) dirname fs.
Proof.
  intros Hup Hfile Hpng. rewrite (visualizeGraph_run png dirname fs) by assumption.
  cbn [fst]. rewrite visualizeGraph_run.
  - cbn [dirs files]. rewrite insert_insert_eq.
    rewrite (assoc_L (∪)), (idemp_L (∪)). reflexivity.
  - apply isDir_true. cbn [dirs]. apply isDir_true in Hup. set_solver.
  - unfold isFile in *. cbn [files]. apply bool_decide_eq_false.
    apply bool_decide_eq_false in Hfile.
    rewrite lookup_insert_ne; [exact Hfile|]. apply graphPng_not_graphsDir.
  - apply isDir_false. cbn [dirs]. apply isDir_false in Hpng.
    rewrite elem_of_union, elem_of_singleton.
    intros [Heq|Hin]; [exact (graphPng_not_graphsDir dirname Heq)|exact (Hpng Hin)].
Qed.

Lemma visualizeGraph_twice_witness :
  visualizeGraph (Done samplePng) sampleDirname
    (visualizeGraph (Done samplePng) sampleDirname sampleFs).1
  = visualizeGraph (Done samplePng) sampleDirname sampleFs.
Proof.
  apply (visualizeGraph_twice samplePng sampleDirname sampleFs); reflexivity.
Defined.

(** X18.  With a regular file named graphs where the directory should be,
    [visualizeGraph] takes it for the directory, does not create one, and the
    write fails with ENOTDIR; the file system is left as it was. *)
Theorem visualizeGraph_blocked_by_file
    (png : list Init.Byte.byte) (dirname : Path) (fs : FileSystem) :
  isFile (graphsDir dirname) fs = true ->
  isDir (graphsDir dirname) fs = false ->
  isDir (graphPng dirname) fs = false ->
  visualizeGraph (Done png) dirname fs = (fs, Raise ENOTDIR).
Proof.
  intros Hfile Hdir Hpng. unfold visualizeGraph.
  fold (graphsDir dirname). fold (graphPng dirname).
  unfold existsSync. rewrite Hfile, orb_true_r. cbn [negb].
  unfold writeFileSync, parentError.
  rewrite Hpng, parent_graphPng, Hdir, Hfile. reflexivity.
Qed.

Lemma visualizeGraph_blocked_by_file_witness :
  visualizeGraph (Done samplePng) sampleDirname blockedFs = (blockedFs, Raise ENOTDIR).
Proof.
  apply (visualizeGraph_blocked_by_file samplePng sampleDirname blockedFs); reflexivity.
Defined.

End Visualizer.
